(** * Infinite-scroll user list: cache decorator, fetch client, debounce

    A shallow embedding of the TypeScript sources

      - [src/services/api.ts]       ([UserService], [UserServiceDecorator],
                                     [CachingUserService], [createUserService])
      - [src/utils/debounce.ts]     ([debounce])
      - [src/components/UserList.vue] ([loadUsers], [retryLoading])
      - [src/components/UserCard.vue] (the refs and their handlers)
      - [src/utils/stringUtils.ts]  ([isEmpty])
      - [src/entities/user.ts]      (the record types)

    Conventions of the embedding.

      - A JavaScript [number] that the code uses as a page number, a page
        size, an HTTP status or a millisecond count is an integer; it is
        modelled as [Z], and its template-literal rendering as the decimal
        string of stdpp's [pretty].
      - A promise is modelled by its settlement, [settled A]: it either
        resolves with a value or rejects with the thrown value.
      - An [async] function is split where it awaits: the part that runs
        synchronously at the call ([.._enter]) and the part that runs when
        the awaited promise settles ([.._resume]).  The composite definition
        runs both with nothing in between.
      - Timers live in an explicit event loop with an integer clock; a timer
        callback never runs inside a synchronous block, only when the loop
        is given control ([advance]). *)

From Stdlib Require Import Ascii String.
From Stdlib Require PrimFloat.
From stdpp Require Import base numbers strings pretty list gmap fin_maps.

Local Open Scope Z_scope.
Local Open Scope string_scope.

(** ** JavaScript values shared by all components *)

(** A thrown value: an instance of [Error] (with its [message]) or any other
    value (a thrown string, say), for which [instanceof Error] is false. *)
Inductive thrown : Type :=
  | ErrorObj (message : string)
  | NonError (value : string).

(** The settlement of a promise. *)
Inductive settled (A : Type) : Type :=
  | Resolved (a : A)
  | Rejected (e : thrown).
Arguments Resolved {A} a.
Arguments Rejected {A} e.

Definition instanceof_Error (e : thrown) : bool :=
  match e with ErrorObj _ => true | NonError _ => false end.

(** ** [entities/user.ts] *)

Record UserName := { title : string; first : string; last : string }.
Record UserPicture := { large : string; medium : string; thumbnail : string }.
Record UserLogin := { uuid : string; username : string }.
Record UserStreet := { street_number : Z; street_name : string }.
Record UserLocation := {
  country : string; city : string; state : string;
  street : UserStreet; postcode : string }.
Record UserDob := { date : string; age : Z }.

Record User := {
  gender : string;
  name : UserName;
  location : UserLocation;
  email : string;
  dob : UserDob;
  phone : string;
  cell : string;
  nat_ : string;
  picture : UserPicture;
  login : UserLogin }.

Record ApiInfo := {
  info_page : Z;
  info_results : Z;
  info_seed : string;
  info_version : string }.

Record ApiResponse := { results : list User; info : ApiInfo }.

(** ** [services/api.ts]: options and the abstract service *)

(** [FetchUsersOptions]: both fields optional.  An omitted argument is the
    record with both fields absent (the parameter default [= {}]). *)
Record FetchUsersOptions := { page : option Z; results_ : option Z }.

Definition no_options : FetchUsersOptions := {| page := None; results_ := None |}.
Definition options (p r : Z) : FetchUsersOptions :=
  {| page := Some p; results_ := Some r |}.

(** [abstract class BaseUserService]: anything with a [fetchUsers] method.
    [S] is the state the object owns or reaches; the promise it returns is
    given by its settlement ([undefined] is [None]). *)
Class BaseUserService (S : Type) := {
  fetchUsers : FetchUsersOptions → S → settled (option ApiResponse) * S
}.

(** ** The key derivation, [CachingUserService.getCacheKey] *)

Definition getCacheKey (page results : Z) : string :=
  "page_" +:+ pretty page +:+ "_" +:+ pretty results.

(** Whether a character occurs in a string (the separator of the key). *)
Fixpoint occurs (c : ascii) (s : string) : bool :=
  match s with
  | EmptyString => false
  | String a s' => if Ascii.eqb c a then true else occurs c s'
  end.

(** ** The network as [UserService] reaches it

    The global [fetch] is a double in the manner of the tests' [vi.fn]: it
    answers a request from the URLs requested before and the URL asked now,
    and records the request.  [console] collects what [console.error]
    printed. *)

Record Response := { ok : bool; status : Z; json : settled ApiResponse }.

Record Network := {
  requests : list string;
  respond : list string → string → settled Response;
  console : list string }.

Definition fetch (url : string) (w : Network) : settled Response * Network :=
  (respond w (requests w) url,
   {| requests := requests w ++ [url]; respond := respond w;
      console := console w |}).

Definition console_error (label message : string) (w : Network) : Network :=
  {| requests := requests w; respond := respond w;
     console := console w ++ [label +:+ " " +:+ message] |}.

Definition message_of (e : thrown) : string :=
  match e with ErrorObj m => m | NonError _ => "" end.

(** ** [class UserService] *)

Definition request_url (page results : Z) : string :=
  "https://randomuser.me/api/?page=" +:+ pretty page +:+
  "&results=" +:+ pretty results +:+ "&seed=abc".

(** [new Error(`HTTP error! status: ${response.status}`)] *)
Definition HttpError (status : Z) : thrown :=
  ErrorObj ("HTTP error! status: " +:+ pretty status).

(** The [try] block once [fetch] has settled. *)
Definition UserService_try (r : settled Response) : settled ApiResponse :=
  match r with
  | Rejected e => Rejected e
  | Resolved response =>
      if negb (ok response) then Rejected (HttpError (status response))
      else json response
  end.

(** [UserService.fetchUsers]: the [try] block, then the [catch] block, which
    rethrows only an instance of [Error]; any other thrown value falls out
    of the function, which then returns [undefined]. *)
Definition UserService_fetchUsers (o : FetchUsersOptions) (w : Network)
  : settled (option ApiResponse) * Network :=
  let page := default 1 (page o) in
  let results := default 10 (results_ o) in
  let '(r, w1) := fetch (request_url page results) w in
  match UserService_try r with
  | Resolved body => (Resolved (Some body), w1)
  | Rejected error =>
      if instanceof_Error error
      then (Rejected error,
            console_error "Error fetching users:" (message_of error) w1)
      else (Resolved None, w1)
  end.

#[export] Instance UserService : BaseUserService Network :=
  {| fetchUsers := UserService_fetchUsers |}.

(** ** [class CachingUserService extends UserServiceDecorator]

    The object's fields ([service], [cache], [cacheTTL]) together with the
    event loop its timers live in: the clock [now] and the pending expiry
    timers, each a deadline and the key its callback closes over, in the
    order they were set.  The TTL of an instance never changes, so that
    order is also the order of the deadlines. *)

Record CachingUserService (S : Type) := {
  service : S;
  cache : gmap string (list User);
  cacheTTL : Z;
  now : Z;
  timers : list (Z * string) }.
Arguments service {S} _.
Arguments cache {S} _.
Arguments cacheTTL {S} _.
Arguments now {S} _.
Arguments timers {S} _.

Section caching.
Context {S : Type} `{!BaseUserService S}.

Definition new_CachingUserService (svc : S) (ttl : option Z)
  : CachingUserService S :=
  {| service := svc; cache := ∅; cacheTTL := default (5 * 60 * 1000) ttl;
     now := 0; timers := [] |}.

Definition set_service (s : S) (c : CachingUserService S) :=
  {| service := s; cache := cache c; cacheTTL := cacheTTL c;
     now := now c; timers := timers c |}.
Definition set_cache (m : gmap string (list User)) (c : CachingUserService S) :=
  {| service := service c; cache := m; cacheTTL := cacheTTL c;
     now := now c; timers := timers c |}.

(** [setTimeout(callback, delay)]: a delay below zero counts as zero; the
    callback runs no earlier than the next turn of the loop.  Delays are
    taken within the range the platform's timers hold, up to 2147483647 ms;
    beyond it a platform arms the timer earlier than the delay asks for,
    never later, and a statement that names a deadline says so. *)
Definition setTimeout (key : string) (delay : Z) (c : CachingUserService S) :=
  {| service := service c; cache := cache c; cacheTTL := cacheTTL c;
     now := now c;
     timers := timers c ++ [(now c + Z.max 0 delay, key)] |}.

(** The timer callback of [setupCacheExpiration]: [this.cache.delete(key)]. *)
Definition expire (key : string) (c : CachingUserService S) :=
  set_cache (delete key (cache c)) c.

Definition setupCacheExpiration (key : string) (c : CachingUserService S) :=
  setTimeout key (cacheTTL c) c.

Definition clearCache (c : CachingUserService S) := set_cache ∅ c.

Definition invalidatePage (page results : Z) (c : CachingUserService S) :=
  let key := getCacheKey page results in
  set_cache (delete key (cache c)) c.

(** The metadata a cache hit returns. *)
Definition hit_info (page results : Z) : ApiInfo :=
  {| info_page := page; info_results := results;
     info_seed := "abc"; info_version := "1.0" |}.

(** Where [fetchUsers] stands after its synchronous part: it has returned
    a response built from the cache, or it awaits [super.fetchUsers]. *)
Inductive entered : Type :=
  | Served (response : ApiResponse)
  | AwaitSuper (cacheKey : string) (o : FetchUsersOptions).

Definition key_of (o : FetchUsersOptions) : string :=
  getCacheKey (default 1 (page o)) (default 10 (results_ o)).

Definition Caching_fetchUsers_enter (o : FetchUsersOptions)
  (c : CachingUserService S) : entered :=
  let page := default 1 (page o) in
  let results := default 10 (results_ o) in
  let cacheKey := getCacheKey page results in
  match cache c !! cacheKey with
  | Some users =>
      Served {| results := users; info := hit_info page results |}
  | None => AwaitSuper cacheKey (options page results)
  end.

(** [UserServiceDecorator.fetchUsers]: pass through to [this.service]. *)
Definition Decorator_fetchUsers (o : FetchUsersOptions)
  (c : CachingUserService S) : settled (option ApiResponse) * CachingUserService S :=
  let '(r, s') := fetchUsers o (service c) in (r, set_service s' c).

(** After the [await]: a rejection leaves the function at once; a truthy
    response is stored and its expiry timer set; the response is returned. *)
Definition Caching_fetchUsers_resume (cacheKey : string)
  (response : settled (option ApiResponse)) (c : CachingUserService S)
  : settled (option ApiResponse) * CachingUserService S :=
  match response with
  | Rejected e => (Rejected e, c)
  | Resolved None => (Resolved None, c)
  | Resolved (Some r) =>
      (Resolved (Some r),
       setupCacheExpiration cacheKey
         (set_cache (<[cacheKey := results r]> (cache c)) c))
  end.

Definition Caching_fetchUsers (o : FetchUsersOptions) (c : CachingUserService S)
  : settled (option ApiResponse) * CachingUserService S :=
  match Caching_fetchUsers_enter o c with
  | Served response => (Resolved (Some response), c)
  | AwaitSuper cacheKey o' =>
      let '(r, c1) := Decorator_fetchUsers o' c in
      Caching_fetchUsers_resume cacheKey r c1
  end.

(** The event loop is given control for [d] milliseconds: the clock moves
    on and every timer whose deadline has come runs its callback, oldest
    first; the others stay. *)
Definition due (t : Z) (tm : Z * string) : bool := bool_decide (tm.1 ≤ t)%Z.

Definition run_timers (t : Z) (c : CachingUserService S) : CachingUserService S :=
  foldl (λ c' tm, if due t tm then expire tm.2 c' else c') c (timers c).

Definition advance (d : Z) (c : CachingUserService S) : CachingUserService S :=
  let t := now c + Z.max 0 d in
  let c' := run_timers t c in
  {| service := service c'; cache := cache c'; cacheTTL := cacheTTL c';
     now := t; timers := filter (λ tm, negb (due t tm) = true) (timers c) |}.
End caching.

#[export] Instance CachingUserService_service {S} `{!BaseUserService S}
  : BaseUserService (CachingUserService S) :=
  {| fetchUsers := Caching_fetchUsers |}.

(** [createUserService]: the plain client, or the client behind the cache. *)
Definition createUserService (enableCaching : option bool) (cacheTTL : option Z)
  (w : Network) : Network + CachingUserService Network :=
  if default true enableCaching
  then inr (new_CachingUserService w (Some (default (5 * 60 * 1000) cacheTTL)))
  else inl w.

(** ** [utils/debounce.ts]

    [Args] is [Parameters<T>].  The world of a debounced function: the
    clock, the timers the loop holds (each with the arguments its [later]
    closure captured), the closure variable [timeout], and a record of the
    calls [func] has received, each with the time of the call. *)

Module Debounce.
Section debounce.
Context {Args : Type}.

Record Timer := { id : nat; deadline : Z; captured : Args }.

Record World := {
  clock : Z;
  next_id : nat;
  queue : list Timer;
  timeout : option nat;
  invoked : list (Z * Args) }.

(** Before the first call [timeout] is [undefined]. *)
Definition start (t0 : Z) : World :=
  {| clock := t0; next_id := 0; queue := []; timeout := None; invoked := [] |}.

(** [clearTimeout(handle)]: an unknown or absent handle is ignored. *)
Definition clearTimeout (handle : option nat) (q : list Timer) : list Timer :=
  match handle with
  | None => q
  | Some h => filter (λ t, id t ≠ h) q
  end.

(** The function [debounce(func, wait)] returns:
    [clearTimeout(timeout); timeout = setTimeout(later, wait)]. *)
Definition executedFunction (wait : Z) (args : Args) (w : World) : World :=
  let q := clearTimeout (timeout w) (queue w) in
  let h := next_id w in
  {| clock := clock w; next_id := Datatypes.S h;
     queue := q ++ [{| id := h; deadline := clock w + Z.max 0 wait;
                       captured := args |}];
     timeout := Some h; invoked := invoked w |}.

(** The callback [later], run at time [t]:
    [clearTimeout(timeout); func(...args)]. *)
Definition later (t : Z) (args : Args) (w : World) : World :=
  {| clock := t; next_id := next_id w;
     queue := clearTimeout (timeout w) (queue w);
     timeout := timeout w; invoked := invoked w ++ [(t, args)] |}.

Definition remove (h : nat) (w : World) : World :=
  {| clock := clock w; next_id := next_id w;
     queue := filter (λ t, id t ≠ h) (queue w);
     timeout := timeout w; invoked := invoked w |}.

Definition pending (h : nat) (w : World) : bool :=
  bool_decide (h ∈ map id (queue w)).

(** The loop runs the timers that were due, oldest first; a timer that an
    earlier callback cleared does not run. *)
Fixpoint fire (ts : list Timer) (w : World) : World :=
  match ts with
  | [] => w
  | t :: ts' =>
      if pending (id t) w
      then fire ts' (later (deadline t) (captured t) (remove (id t) w))
      else fire ts' w
  end.

Definition advance_to (t : Z) (w : World) : World :=
  let t' := Z.max (clock w) t in
  let w' := fire (filter (λ tm, (deadline tm ≤ t')%Z) (queue w)) w in
  {| clock := t'; next_id := next_id w'; queue := queue w';
     timeout := timeout w'; invoked := invoked w' |}.

(** A session: calls of the debounced function at the given times. *)
Definition call_at (wait : Z) (w : World) (c : Z * Args) : World :=
  executedFunction wait c.2 (advance_to c.1 w).

Definition run (wait : Z) (calls : list (Z * Args)) (w : World) : World :=
  foldl (call_at wait) w calls.

(** The times of a session do not go back. *)
Fixpoint chronological (t0 : Z) (calls : list (Z * Args)) (stop : Z) : Prop :=
  match calls with
  | [] => (t0 ≤ stop)%Z
  | c :: rest => (t0 ≤ c.1)%Z ∧ chronological c.1 rest stop
  end.

(** Written from the specification, a trailing-edge debounce with window
    [W] observed until [stop]: a call leads to an invocation exactly when
    no call follows it within the window; the invocation comes [W] after
    the call and carries its arguments. *)
Fixpoint trailing_edge (W : Z) (calls : list (Z * Args)) (stop : Z)
  : list (Z * Args) :=
  match calls with
  | [] => []
  | c :: rest =>
      let next := match rest with [] => stop | c' :: _ => c'.1 end in
      (if bool_decide (c.1 + W ≤ next)%Z then [(c.1 + W, c.2)%Z] else [])
      ++ trailing_edge W rest stop
  end.

(** A burst: every call follows the one before within the window. *)
Fixpoint burst (W : Z) (calls : list (Z * Args)) : Prop :=
  match calls with
  | [] => True
  | c :: rest =>
      match rest with
      | [] => True
      | c' :: _ => (c'.1 < c.1 + W)%Z
      end ∧ burst W rest
  end.

(** The shape the world keeps between events.  [tidy w p]: when [p] is
    the call [(t, args)], the loop holds exactly the timer of that call,
    due one window after it, and [timeout] is its handle; when [p] is
    absent the loop holds no timer. *)
Definition tidy (W : Z) (w : World) (p : option (Z * Args)) : Prop :=
  match p with
  | None => queue w = []
  | Some c =>
      ∃ h, queue w = [{| id := h; deadline := c.1 + W; captured := c.2 |}]
           ∧ timeout w = Some h
  end.

Definition emitted (W : Z) (p : option (Z * Args)) (t : Z) : list (Z * Args) :=
  match p with
  | Some c => if bool_decide (c.1 + W ≤ t)%Z then [(c.1 + W, c.2)%Z] else []
  | None => []
  end.

Definition still (W : Z) (p : option (Z * Args)) (t : Z) : option (Z * Args) :=
  match p with
  | Some c => if bool_decide (c.1 + W ≤ t)%Z then None else Some c
  | None => None
  end.
End debounce.
Arguments Timer : clear implicits.
Arguments World : clear implicits.
End Debounce.

(** Calls that keep their distance: after each call a full window passes
    before the next call, and before the observation stops. *)
Fixpoint spaced {Args : Type} (W : Z) (calls : list (Z * Args)) (stop : Z)
  : Prop :=
  match calls with
  | [] => True
  | c :: rest =>
      (c.1 + W ≤ match rest with [] => stop | c' :: _ => c'.1 end)%Z
      ∧ spaced W rest stop
  end.

(** ** [components/UserList.vue]: the refs of [setup] and the loaders *)

Module UserList.
Record State := {
  users : list User;
  currentPage : Z;
  loading : bool;
  error : option string;
  hasMore : bool }.

Definition initial : State :=
  {| users := []; currentPage := 1; loading := false; error := None;
     hasMore := true |}.

(** [loadUsers] up to its [await]: the guard, then the two assignments and
    the request it sends to the service. *)
Definition loadUsers_enter (s : State) : State * option FetchUsersOptions :=
  if loading s || negb (hasMore s) then (s, None)
  else ({| users := users s; currentPage := currentPage s; loading := true;
           error := None; hasMore := hasMore s |},
        Some (options (currentPage s) 10)).

(** The [finally] block. *)
Definition finally (s : State) : State :=
  {| users := users s; currentPage := currentPage s; loading := false;
     error := error s; hasMore := hasMore s |}.

(** [loadUsers] after its [await], by the settlement of the call. *)
Definition loadUsers_resume (r : settled (option ApiResponse)) (s : State)
  : State :=
  match r with
  | Resolved (Some response) =>
      if bool_decide (length (results response) = 0%nat)
      then finally {| users := users s; currentPage := currentPage s;
                      loading := loading s; error := error s;
                      hasMore := false |}
      else finally {| users := users s ++ results response;
                      currentPage := currentPage s + 1;
                      loading := loading s; error := error s;
                      hasMore := hasMore s |}
  | Resolved None => finally s
  | Rejected err =>
      finally {| users := users s; currentPage := currentPage s;
                 loading := loading s;
                 error := Some (match err with
                                | ErrorObj m => m
                                | NonError _ =>
                                    "An error occurred while loading users"
                                end);
                 hasMore := false |}
  end.

(** [loadUsers] with the service answering at once. *)
Definition loadUsers {S} `{!BaseUserService S} (s : State) (svc : S)
  : State * S :=
  match loadUsers_enter s with
  | (s1, None) => (s1, svc)
  | (s1, Some o) =>
      let '(r, svc') := fetchUsers o svc in (loadUsers_resume r s1, svc')
  end.

(** [retryLoading] up to the [await] inside its call of [loadUsers]. *)
Definition retryLoading_enter (s : State) : State * option FetchUsersOptions :=
  loadUsers_enter {| users := users s; currentPage := currentPage s;
                     loading := loading s; error := None; hasMore := true |}.
End UserList.

(** ** Sessions of the decorator

    What callers and the event loop can do to a decorator, one after the
    other: a request, an invalidation, a clear, the passing of time. *)

Inductive cache_op : Type :=
  | OpFetch (o : FetchUsersOptions)
  | OpInvalidate (page results : Z)
  | OpClear
  | OpAdvance (d : Z).

Section cache_session.
Context {S : Type} `{!BaseUserService S}.

Definition apply_op (c : CachingUserService S) (op : cache_op)
  : CachingUserService S :=
  match op with
  | OpFetch o => (Caching_fetchUsers o c).2
  | OpInvalidate p r => invalidatePage p r c
  | OpClear => clearCache c
  | OpAdvance d => advance d c
  end.

Definition run_ops (ops : list cache_op) (c : CachingUserService S)
  : CachingUserService S :=
  foldl apply_op c ops.

(** Every entry has a timer in the loop, and every timer in the loop is due
    no earlier than now and no later than one TTL from now. *)
Definition armed (c : CachingUserService S) : Prop :=
  (∀ k, is_Some (cache c !! k) → ∃ dl, (dl, k) ∈ timers c) ∧
  (∀ dl k, (dl, k) ∈ timers c →
     (now c ≤ dl ∧ dl ≤ now c + Z.max 0 (cacheTTL c))%Z).
End cache_session.

(** The network answered a request for [url] with a response that was [ok]
    and whose body decoded to [body]. *)
Definition answered (w : Network) (url : string) (body : ApiResponse) : Prop :=
  ∃ (i : nat) (response : Response),
    requests w !! i = Some url ∧
    respond w (take i (requests w)) url = Resolved response ∧
    ok response = true ∧ json response = Resolved body.

(** Every entry of the cache is the list of users of a body the network
    sent for the URL of that entry's page and page size. *)
Definition genuine (c : CachingUserService Network) : Prop :=
  ∀ k users, cache c !! k = Some users →
    ∃ p r body, k = getCacheKey p r ∧
                answered (service c) (request_url p r) body ∧
                users = results body.

(** ** What [createUserService] returns, used through [BaseUserService] *)

#[export] Instance sum_service {A B : Type}
  `{!BaseUserService A} `{!BaseUserService B} : BaseUserService (A + B) :=
  {| fetchUsers o s :=
       match s with
       | inl a => let '(r, a') := fetchUsers o a in (r, inl a')
       | inr b => let '(r, b') := fetchUsers o b in (r, inr b')
       end |}.

Definition network_of (s : Network + CachingUserService Network) : Network :=
  match s with inl w => w | inr c => service c end.

(** [cleanup] of [UserList.vue], as far as the service goes:
    [if ("clearCache" in userService) userService.clearCache()]. *)
Definition cleanup (s : Network + CachingUserService Network)
  : Network + CachingUserService Network :=
  match s with inl w => inl w | inr c => inr (clearCache c) end.

(** ** [UserList.vue]: the life of the component *)

Module UserListSession.
(** What happens to the component: [loadUsers] is called (by [onMounted] or
    by the scroll handler), the Retry button is clicked, or the request in
    flight settles. *)
Inductive event : Type :=
  | LoadUsers
  | RetryLoading
  | Settled (r : settled (option ApiResponse)).

(** The refs, the requests sent and not yet settled (oldest first), and the
    settlements received so far. *)
Record Session := {
  view : UserList.State;
  awaiting : list FetchUsersOptions;
  delivered : list (settled (option ApiResponse)) }.

Definition setup : Session :=
  {| view := UserList.initial; awaiting := []; delivered := [] |}.

Definition send (res : UserList.State * option FetchUsersOptions)
  (s : Session) : Session :=
  {| view := res.1; awaiting := (awaiting s ++ option_list res.2)%list;
     delivered := delivered s |}.

(** A settlement with no request in flight cannot happen; it is ignored. *)
Definition deliver (s : Session) (e : event) : Session :=
  match e with
  | LoadUsers => send (UserList.loadUsers_enter (view s)) s
  | RetryLoading => send (UserList.retryLoading_enter (view s)) s
  | Settled r =>
      match awaiting s with
      | [] => s
      | _ :: rest =>
          {| view := UserList.loadUsers_resume r (view s); awaiting := rest;
             delivered := (delivered s ++ [r])%list |}
      end
  end.

Definition run (events : list event) : Session := foldl deliver setup events.

(** The users a settlement brings. *)
Definition users_of (r : settled (option ApiResponse)) : list User :=
  match r with Resolved (Some response) => results response | _ => [] end.

Definition brings_users (r : settled (option ApiResponse)) : bool :=
  match users_of r with [] => false | _ :: _ => true end.

Definition pages_brought (l : list (settled (option ApiResponse))) : nat :=
  length (List.filter brings_users l).

(** What holds of a session between events. *)
Definition consistent (s : Session) : Prop :=
  (length (awaiting s) ≤ 1)%nat ∧
  (UserList.loading (view s) = true ↔ awaiting s ≠ []) ∧
  (∀ o, o ∈ awaiting s → o = options (UserList.currentPage (view s)) 10) ∧
  (UserList.error (view s) ≠ None → UserList.hasMore (view s) = false) ∧
  UserList.users (view s) = concat (map users_of (delivered s)) ∧
  UserList.currentPage (view s) = 1 + Z.of_nat (pages_brought (delivered s)).
End UserListSession.

(** ** [UserList.vue]: the scroll handler

    The handler keeps the event and reads the geometry of [event.target]
    when it runs, which is when the timer of the debounce fires.  The
    three properties it reads are numbers, that is binary64 floating-point
    values, and so are the difference, the sum and the comparison. *)

Module ScrollModel.
Import PrimFloat.

Record Geometry := {
  scrollHeight : float;
  scrollTop : float;
  clientHeight : float }.

(** [scrollHeight - scrollTop <= clientHeight + 100] *)
Definition near_bottom (g : Geometry) : bool :=
  leb (sub (scrollHeight g) (scrollTop g)) (add (clientHeight g) 100%float).

(** The function handed to [debounce], given what [event.target] shows
    when the function runs. *)
Definition onScroll (g : Geometry) (s : UserList.State)
  : UserList.State * option FetchUsersOptions :=
  if near_bottom g then UserList.loadUsers_enter s else (s, None).

(** The debounced handler has run for the events in [fired], each at its
    time and in that order, with no settlement in between: the refs
    afterwards and the requests sent.  [live e t] is the geometry the
    target of the event [e] has at the time [t]. *)
Definition after_scrolls {Event : Type} (live : Event → Z → Geometry)
  (fired : list (Z * Event)) (s : UserList.State)
  : UserList.State * list FetchUsersOptions :=
  foldl (λ acc tm, ((onScroll (live tm.2 tm.1) acc.1).1,
                    (acc.2 ++ option_list
                                (onScroll (live tm.2 tm.1) acc.1).2)%list))
        (s, []) fired.
End ScrollModel.

(** ** [components/UserCard.vue]: the three refs and their handlers *)

Module UserCard.
Record State := {
  isImageLoading : bool;
  imageLoadError : bool;
  isExpanded : bool }.

Definition initial : State :=
  {| isImageLoading := true; imageLoadError := false; isExpanded := false |}.

Definition handleImageLoad (s : State) : State :=
  {| isImageLoading := false; imageLoadError := imageLoadError s;
     isExpanded := isExpanded s |}.

Definition handleImageError (s : State) : State :=
  {| isImageLoading := false; imageLoadError := true;
     isExpanded := isExpanded s |}.

Definition toggleExpanded (s : State) : State :=
  {| isImageLoading := isImageLoading s; imageLoadError := imageLoadError s;
     isExpanded := negb (isExpanded s) |}.

Inductive event : Type := ImageLoad | ImageError | Click.

Definition handle (s : State) (e : event) : State :=
  match e with
  | ImageLoad => handleImageLoad s
  | ImageError => handleImageError s
  | Click => toggleExpanded s
  end.

Definition run (events : list event) : State := foldl handle initial events.

Definition is_click (e : event) : bool :=
  match e with Click => true | _ => false end.
Definition is_image_error (e : event) : bool :=
  match e with ImageError => true | _ => false end.
End UserCard.

(** ** [utils/stringUtils.ts]: [isEmpty]

    A string is its sequence of UTF-16 code units.  [trim] removes, from
    both ends, the white space and line terminator characters of the
    language; each of them is a single code unit. *)

Module StringUtils.
Definition is_white_space (c : N) : bool :=
  bool_decide (c ∈ [0x0009; 0x000A; 0x000B; 0x000C; 0x000D; 0x0020; 0x00A0;
                    0x1680; 0x2000; 0x2001; 0x2002; 0x2003; 0x2004; 0x2005;
                    0x2006; 0x2007; 0x2008; 0x2009; 0x200A; 0x2028; 0x2029;
                    0x202F; 0x205F; 0x3000; 0xFEFF]%N).

Fixpoint trimStart (s : list N) : list N :=
  match s with
  | [] => []
  | c :: s' => if is_white_space c then trimStart s' else s
  end.

Definition trimEnd (s : list N) : list N := reverse (trimStart (reverse s)).

Definition trim (s : list N) : list N := trimEnd (trimStart s).

(** [str.trim().length === 0] *)
Definition isEmpty (str : list N) : bool :=
  bool_decide (length (trim str) = 0%nat).
End StringUtils.

(** ** Sample data: the user of the test suite and upstream doubles *)

Definition john : User :=
  {| gender := "male";
     name := {| title := "Mr"; first := "John"; last := "Doe" |};
     location := {| country := "USA"; city := "New York"; state := "NY";
                    street := {| street_number := 123; street_name := "Main St" |};
                    postcode := "10001" |};
     email := "john@example.com";
     dob := {| date := "1990-01-01"; age := 33 |};
     phone := "1234567890"; cell := "0987654321"; nat_ := "US";
     picture := {| large := "large-url"; medium := "medium-url";
                   thumbnail := "thumb-url" |};
     login := {| uuid := "123"; username := "johndoe" |} |}.

Definition network (answer : settled Response) : Network :=
  {| requests := []; respond := λ _ _, answer; console := [] |}.

(** An upstream that answers every request with one user and the metadata
    version 1.4. *)
Definition body_v14 : ApiResponse :=
  {| results := [john];
     info := {| info_page := 1; info_results := 10; info_seed := "abc";
                info_version := "1.4" |} |}.
Definition net_v14 : Network :=
  network (Resolved {| ok := true; status := 200; json := Resolved body_v14 |}).

(** An upstream that answers its first request with that body and every
    later one with a body without users. *)
Definition body_none : ApiResponse :=
  {| results := [];
     info := {| info_page := 1; info_results := 10; info_seed := "abc";
                info_version := "1.4" |} |}.
Definition net_two_answers : Network :=
  {| requests := [];
     respond := λ before _,
       Resolved {| ok := true; status := 200;
                   json := Resolved (match before with
                                     | [] => body_v14
                                     | _ :: _ => body_none
                                     end) |};
     console := [] |}.

(** An upstream that answers every request with status 500. *)
Definition net_500 : Network :=
  network (Resolved {| ok := false; status := 500;
                       json := Rejected (ErrorObj "no body") |}).

(** An upstream whose [fetch] rejects with a thrown string. *)
Definition net_string : Network := network (Rejected (NonError "offline")).

Definition page1 : FetchUsersOptions := options 1 10.

(** Runs of the decorator over the version-1.4 upstream. *)

(** A fresh decorator with a TTL of one second, as in the test suite. *)
Definition fresh_v14 : CachingUserService Network :=
  new_CachingUserService net_v14 (Some 1000).

Definition fresh_two_answers : CachingUserService Network :=
  new_CachingUserService net_two_answers (Some 1000).

(** The state after the first request for page 1. *)
Definition after_first : CachingUserService Network :=
  (Caching_fetchUsers page1 fresh_v14).2.

(** Half a second later the page is invalidated, after another 100 ms it is
    requested again (clock: 600 ms), and 400 ms pass (clock: 1000 ms). *)
Definition invalidated : CachingUserService Network :=
  invalidatePage 1 10 (advance 500 after_first).
Definition refetched : CachingUserService Network :=
  (Caching_fetchUsers page1 (advance 100 invalidated)).2.
Definition at_1000 : CachingUserService Network := advance 400 refetched.

(** The state after requests for page 1 and page 2. *)
Definition two_pages : CachingUserService Network :=
  (Caching_fetchUsers (options 2 10) after_first).2.

Module ScrollSamples.
Import PrimFloat.

(** A list 3000 px high in a window of 700 px, scrolled to 50 px from the
    bottom; and the same list once another page has made it 6000 px high. *)
Definition at_bottom : ScrollModel.Geometry :=
  {| ScrollModel.scrollHeight := 3000%float;
     ScrollModel.scrollTop := 2250%float;
     ScrollModel.clientHeight := 700%float |}.
Definition grown : ScrollModel.Geometry :=
  {| ScrollModel.scrollHeight := 6000%float;
     ScrollModel.scrollTop := 2250%float;
     ScrollModel.clientHeight := 700%float |}.

(** The list grows at 400 ms. *)
Definition grows_at_400 (e : nat) (t : Z) : ScrollModel.Geometry :=
  if bool_decide (t < 400)%Z then at_bottom else grown.
End ScrollSamples.

Example getCacheKey_1_10 : getCacheKey 1 10 = "page_1_10".
Proof. reflexivity. Qed.
Example getCacheKey_neg : getCacheKey (-3) 250 = "page_-3_250".
Proof. reflexivity. Qed.
Example key_of_default : key_of no_options = "page_1_10".
Proof. reflexivity. Qed.
Example request_url_default :
  request_url 1 10 = "https://randomuser.me/api/?page=1&results=10&seed=abc".
Proof. reflexivity. Qed.

(** * Properties *)

(** *** Decimal renderings never contain the separator *)

Lemma occurs_app c s t : occurs c (s +:+ t) = occurs c s || occurs c t.
Proof.
  induction s as [|a s IH]; simpl; [done|].
  rewrite IH. by destruct (Ascii.eqb c a).
Qed.

Lemma pretty_N_char_not_sep d : Ascii.eqb "_"%char (pretty_N_char d) = false.
Proof. unfold pretty_N_char. by repeat case_match. Qed.

Lemma pretty_N_go_no_sep x s :
  occurs "_"%char s = false → occurs "_"%char (pretty_N_go x s) = false.
Proof.
  revert s. induction (N.lt_wf_0 x) as [x _ IH]; intros s Hs.
  destruct (decide (x = 0%N)) as [->|Hx].
  - by rewrite pretty_N_go_0.
  - rewrite pretty_N_go_step by lia.
    apply IH; [apply N.div_lt; lia|].
    cbn [occurs]. by rewrite pretty_N_char_not_sep.
Qed.

Lemma pretty_N_no_sep (x : N) : occurs "_"%char (pretty x) = false.
Proof.
  unfold pretty, pretty_N. case_decide; [done|].
  by apply pretty_N_go_no_sep.
Qed.

Lemma pretty_Z_no_sep (z : Z) : occurs "_"%char (pretty z) = false.
Proof.
  destruct z as [|p|p]; [done|apply pretty_N_no_sep|].
  change (pretty (Z.neg p)) with ("-" +:+ pretty (N.pos p)).
  rewrite occurs_app, pretty_N_no_sep. done.
Qed.

(** Two strings that agree after a separator-free prefix each, followed by
    the separator, agree piecewise. *)
Lemma split_at_sep c s1 s2 t1 t2 :
  occurs c s1 = false → occurs c t1 = false →
  s1 +:+ String c s2 = t1 +:+ String c t2 → s1 = t1 ∧ s2 = t2.
Proof.
  revert t1. induction s1 as [|a s1 IH]; intros [|b t1]; simpl.
  - intros _ _ [= ->]. done.
  - intros _ Hb [= <- _]. by rewrite Ascii.eqb_refl in Hb.
  - intros Ha _ [= -> _]. by rewrite Ascii.eqb_refl in Ha.
  - intros Ha Hb [= -> Heq].
    destruct (Ascii.eqb c b); [done|].
    destruct (IH t1 Ha Hb Heq) as [-> ->]. done.
Qed.

Lemma getCacheKey_inj p r p' r' :
  getCacheKey p r = getCacheKey p' r' → p = p' ∧ r = r'.
Proof.
  unfold getCacheKey. intros H. injection H as H.
  apply split_at_sep in H as [Hp Hr]; [|apply pretty_Z_no_sep..].
  split; by apply (inj pretty).
Qed.

Lemma getCacheKey_ne p r p' r' :
  (p, r) ≠ (p', r') → getCacheKey p r ≠ getCacheKey p' r'.
Proof. intros Hne [-> ->]%getCacheKey_inj. done. Qed.

(** C5: the key derivation is a function (equal parameters, equal keys) and
    it is injective: two keys are equal only if both the page numbers and
    the page sizes are; in particular the keys of (1, 10) and (2, 10)
    differ. *)
Theorem getCacheKey_deterministic_injective :
  (∀ p r p' r', p = p' → r = r' → getCacheKey p r = getCacheKey p' r') ∧
  (∀ p r p' r', getCacheKey p r = getCacheKey p' r' → p = p' ∧ r = r') ∧
  getCacheKey 1 10 = getCacheKey 1 10 ∧
  getCacheKey 1 10 ≠ getCacheKey 2 10.
Proof.
  split; [by intros p r p' r' -> ->|].
  split; [apply getCacheKey_inj|].
  split; [done|].
  apply getCacheKey_ne. intros [=].
Qed.

Lemma getCacheKey_deterministic_injective_witness :
  getCacheKey 3 10 = getCacheKey 3 10 ∧ (3 = 3 ∧ 10 = 10).
Proof.
  split.
  - apply (proj1 getCacheKey_deterministic_injective 3 10 3 10); reflexivity.
  - apply (proj1 (proj2 getCacheKey_deterministic_injective) 3 10 3 10).
    reflexivity.
Defined.

(** *** The cache decorator: entering, resuming, timers *)

Section caching_facts.
Context {S : Type} `{!BaseUserService S}.
Implicit Types (c : CachingUserService S) (o : FetchUsersOptions).

Lemma enter_hit c o stored :
  cache c !! key_of o = Some stored →
  Caching_fetchUsers_enter o c =
    Served {| results := stored;
              info := hit_info (default 1 (page o)) (default 10 (results_ o)) |}.
Proof. unfold Caching_fetchUsers_enter, key_of. by intros ->. Qed.

Lemma enter_miss c o :
  cache c !! key_of o = None →
  Caching_fetchUsers_enter o c =
    AwaitSuper (key_of o)
      (options (default 1 (page o)) (default 10 (results_ o))).
Proof. unfold Caching_fetchUsers_enter, key_of. by intros ->. Qed.

(** A miss returns what the wrapped service answers and leaves the wrapped
    service in the state that call left it in. *)
Lemma miss_delegates c o :
  cache c !! key_of o = None →
  let o' := options (default 1 (page o)) (default 10 (results_ o)) in
  (Caching_fetchUsers o c).1 = (fetchUsers o' (service c)).1 ∧
  service (Caching_fetchUsers o c).2 = (fetchUsers o' (service c)).2.
Proof.
  intros Hmiss o'. unfold Caching_fetchUsers.
  rewrite (enter_miss _ _ Hmiss). unfold Decorator_fetchUsers. fold o'.
  destruct (fetchUsers o' (service c)) as [[[r|]|e] s']; done.
Qed.

Lemma hit_returns c o stored :
  cache c !! key_of o = Some stored →
  Caching_fetchUsers o c =
    (Resolved (Some {| results := stored;
                       info := hit_info (default 1 (page o))
                                        (default 10 (results_ o)) |}), c).
Proof.
  intros Hhit. unfold Caching_fetchUsers. by rewrite (enter_hit _ _ _ Hhit).
Qed.

(** A miss answered with a response stores its users and sets one timer. *)
Lemma miss_stores c o first s1 :
  cache c !! key_of o = None →
  fetchUsers (options (default 1 (page o)) (default 10 (results_ o)))
    (service c) = (Resolved (Some first), s1) →
  Caching_fetchUsers o c =
    (Resolved (Some first),
     setupCacheExpiration (key_of o)
       (set_cache (<[key_of o := results first]> (cache c))
          (set_service s1 c))).
Proof.
  intros Hmiss Hup. unfold Caching_fetchUsers.
  rewrite (enter_miss _ _ Hmiss). unfold Decorator_fetchUsers.
  by rewrite Hup.
Qed.

(** Timer callbacks only delete. *)
Lemma run_timers_fold_service t l c :
  service (foldl (λ c' tm, if due t tm then expire tm.2 c' else c') c l)
  = service c.
Proof.
  revert c. induction l as [|tm l IH]; intros c; [done|].
  simpl. rewrite IH. by destruct (due t tm).
Qed.

Lemma run_timers_fold_gone t l c k :
  cache c !! k = None →
  cache (foldl (λ c' tm, if due t tm then expire tm.2 c' else c') c l) !! k
  = None.
Proof.
  revert c. induction l as [|tm l IH]; intros c Hk; [done|].
  simpl. apply IH. destruct (due t tm); [|done].
  simpl. destruct (decide (tm.2 = k)) as [->|Hne].
  - apply lookup_delete_eq.
  - by rewrite lookup_delete_ne.
Qed.

Lemma run_timers_fold_due t l c dl k :
  (dl, k) ∈ l → (dl ≤ t)%Z →
  cache (foldl (λ c' tm, if due t tm then expire tm.2 c' else c') c l) !! k
  = None.
Proof.
  revert c. induction l as [|tm l IH]; intros c Hin Hdl.
  - by apply elem_of_nil in Hin.
  - apply elem_of_cons in Hin as [<-|Hin]; simpl.
    + unfold due at 2. simpl. rewrite bool_decide_eq_true_2 by done.
      apply run_timers_fold_gone. simpl. apply lookup_delete_eq.
    + by apply IH.
Qed.

Lemma run_timers_fold_other t l c k :
  (∀ dl, (dl, k) ∈ l → ¬ (dl ≤ t)%Z) →
  cache (foldl (λ c' tm, if due t tm then expire tm.2 c' else c') c l) !! k
  = cache c !! k.
Proof.
  revert c. induction l as [|[dl k'] l IH]; intros c Hno; [done|].
  simpl. rewrite IH.
  - unfold due. simpl. case_bool_decide as Hdue; [|done].
    simpl. apply lookup_delete_ne. intros ->.
    apply (Hno dl); [left|done].
  - intros dl' Hin. apply Hno. by right.
Qed.

Lemma advance_due c d dl k :
  (dl, k) ∈ timers c → (dl ≤ now c + Z.max 0 d)%Z →
  cache (advance d c) !! k = None.
Proof. intros Hin Hdl. simpl. by eapply run_timers_fold_due. Qed.

Lemma advance_other c d k :
  (∀ dl, (dl, k) ∈ timers c → ¬ (dl ≤ now c + Z.max 0 d)%Z) →
  cache (advance d c) !! k = cache c !! k.
Proof. intros Hno. simpl. by apply run_timers_fold_other. Qed.

Lemma advance_service c d : service (advance d c) = service c.
Proof. simpl. apply run_timers_fold_service. Qed.

Lemma expire_absent c k : cache c !! k = None → expire k c = c.
Proof.
  intros Hk. unfold expire, set_cache. rewrite delete_id by done.
  by destruct c.
Qed.
End caching_facts.

(** *** The cache decorator: the claims *)

Example first_call_goes_upstream :
  (Caching_fetchUsers page1 fresh_v14).1 = Resolved (Some body_v14)
  ∧ requests (service after_first)
    = ["https://randomuser.me/api/?page=1&results=10&seed=abc"]
  ∧ timers after_first = [(1000, "page_1_10")].
Proof. vm_compute. done. Qed.

(** The scenarios of the test suite, counted in requests sent upstream:
    a second call within the TTL sends none, a call after 1100 ms sends the
    second; after invalidating page 1 of two cached pages, asking for both
    again sends one more request, three in all. *)
Example scenario_ttl :
  let second := (Caching_fetchUsers page1 after_first).2 in
  let third := (Caching_fetchUsers page1 (advance 1100 second)).2 in
  length (requests (service second)) = 1%nat ∧
  length (requests (service third)) = 2%nat.
Proof. vm_compute. done. Qed.

Example scenario_invalidate :
  let c := invalidatePage 1 10 two_pages in
  let c1 := (Caching_fetchUsers page1 c).2 in
  let c2 := (Caching_fetchUsers (options 2 10) c1).2 in
  length (requests (service two_pages)) = 2%nat ∧
  length (requests (service c2)) = 3%nat.
Proof. vm_compute. done. Qed.

(** C1: a second call for the same page within the TTL must return what the
    first call returned.  The code does not: with an upstream whose metadata
    carries version 1.4, the entry is live after the first call and the
    second call is served from it, yet what the second call returns is not
    what the first call returned, which is what the test "should cache
    responses" expects of it. *)
Lemma cache_hit_differs_from_first_result :
  cache after_first !! key_of page1 = Some [john] ∧
  (Caching_fetchUsers page1 after_first).1
    ≠ (Caching_fetchUsers page1 fresh_v14).1.
Proof. split; [by vm_compute|]. vm_compute. intros [=]. Qed.

(** What a hit does: when the cache holds an entry for the key of the
    request, [fetchUsers] returns at once, without reaching [super.fetchUsers] and
    without changing the decorator or the wrapped service; the response is
    the stored list of users under metadata made of the requested page and
    page size and the constants seed "abc" and version "1.0".  After a first
    call that missed and was answered, the stored list is that answer's
    list of users, and the whole response repeats the first one when the
    upstream metadata had exactly those values. *)
Theorem cache_hit_served_without_upstream
  {S : Type} `{!BaseUserService S} (o : FetchUsersOptions) :
  let p := default 1 (page o) in
  let r := default 10 (results_ o) in
  (∀ (c : CachingUserService S) stored,
     cache c !! key_of o = Some stored →
     Caching_fetchUsers_enter o c
       = Served {| results := stored; info := hit_info p r |} ∧
     Caching_fetchUsers o c
       = (Resolved (Some {| results := stored; info := hit_info p r |}), c)) ∧
  (∀ (c0 : CachingUserService S) first s1,
     cache c0 !! key_of o = None →
     fetchUsers (options p r) (service c0) = (Resolved (Some first), s1) →
     let c1 := (Caching_fetchUsers o c0).2 in
     (Caching_fetchUsers o c0).1 = Resolved (Some first) ∧
     cache c1 !! key_of o = Some (results first) ∧
     Caching_fetchUsers o c1
       = (Resolved (Some {| results := results first; info := hit_info p r |}),
          c1) ∧
     (info first = hit_info p r →
      (Caching_fetchUsers o c1).1 = (Caching_fetchUsers o c0).1)).
Proof.
  intros p r. split.
  - intros c stored Hhit. split; [by apply enter_hit|by apply hit_returns].
  - intros c0 first s1 Hmiss Hup c1. subst c1.
    rewrite (miss_stores _ _ _ _ Hmiss Hup). simpl.
    assert (Hstored : (<[key_of o:=results first]> (cache c0) : gmap _ _)
                        !! key_of o = Some (results first))
      by apply lookup_insert_eq.
    split; [done|]. split; [done|].
    split.
    + rewrite (hit_returns _ o (results first)); done.
    + intros Hinfo. rewrite (hit_returns _ o (results first)) by done.
      simpl. fold p r. rewrite <- Hinfo. by destruct first.
Qed.

Lemma cache_hit_served_without_upstream_witness :
  Caching_fetchUsers page1 after_first
  = (Resolved (Some {| results := [john]; info := hit_info 1 10 |}),
     after_first).
Proof.
  apply (proj1 (cache_hit_served_without_upstream page1) after_first [john]).
  vm_compute. reflexivity.
Defined.

(** C2: when the request misses the cache and the wrapped service rejects,
    [fetchUsers] rejects with the same thrown value; the cache, the timers,
    the TTL and the clock are as before; the next call for the same key
    misses again and returns whatever the wrapped service answers then.
    Whenever the awaited call is rejected, resuming changes nothing. *)
Theorem failure_does_not_poison_cache
  {S : Type} `{!BaseUserService S}
  (c : CachingUserService S) (o : FetchUsersOptions) (e : thrown) (s' : S) :
  let o' := options (default 1 (page o)) (default 10 (results_ o)) in
  cache c !! key_of o = None →
  fetchUsers o' (service c) = (Rejected e, s') →
  let c' := (Caching_fetchUsers o c).2 in
  Caching_fetchUsers o c = (Rejected e, set_service s' c) ∧
  cache c' = cache c ∧ timers c' = timers c ∧
  cacheTTL c' = cacheTTL c ∧ now c' = now c ∧
  Caching_fetchUsers_enter o c' = AwaitSuper (key_of o) o' ∧
  (Caching_fetchUsers o c').1 = (fetchUsers o' s').1 ∧
  service (Caching_fetchUsers o c').2 = (fetchUsers o' s').2 ∧
  (∀ key (c2 : CachingUserService S),
     Caching_fetchUsers_resume key (Rejected e) c2 = (Rejected e, c2)).
Proof.
  intros o' Hmiss Hup c'.
  assert (Hcall : Caching_fetchUsers o c = (Rejected e, set_service s' c)).
  { unfold Caching_fetchUsers. rewrite (enter_miss _ _ Hmiss).
    unfold Decorator_fetchUsers. fold o'. by rewrite Hup. }
  subst c'. rewrite Hcall. simpl.
  assert (Hmiss' : cache (set_service s' c) !! key_of o = None) by done.
  repeat split; try done.
  - by apply enter_miss.
  - by destruct (miss_delegates _ o Hmiss') as [-> _].
  - by destruct (miss_delegates _ o Hmiss') as [_ ->].
Qed.

Lemma failure_does_not_poison_cache_witness :
  Caching_fetchUsers page1 (new_CachingUserService net_500 (Some 1000))
  = (Rejected (HttpError 500),
     set_service (UserService_fetchUsers page1 net_500).2
       (new_CachingUserService net_500 (Some 1000))).
Proof.
  apply (failure_does_not_poison_cache
           (new_CachingUserService net_500 (Some 1000)) page1
           (HttpError 500) (UserService_fetchUsers page1 net_500).2);
    vm_compute; reflexivity.
Defined.

(** C3: the callback of an expiry timer removes the entry of its own key and
    no other; when the loop gets control at or after a timer's deadline the
    key of that timer is absent afterwards, whether or not anyone asks for
    it, and keys without a due timer keep their entries.  So after a call
    that missed and was answered, once the TTL has passed the same request
    misses again and is answered by a new call of the wrapped service. *)
Theorem expiry_evicts_and_next_call_refetches
  {S : Type} `{!BaseUserService S} :
  (∀ (c : CachingUserService S) key,
     cache (expire key c) !! key = None ∧
     (∀ k, k ≠ key → cache (expire key c) !! k = cache c !! k)) ∧
  (∀ (c : CachingUserService S) d dl key,
     (dl, key) ∈ timers c → (dl ≤ now c + Z.max 0 d)%Z →
     cache (advance d c) !! key = None) ∧
  (∀ (c : CachingUserService S) d k,
     (∀ dl, (dl, k) ∈ timers c → ¬ (dl ≤ now c + Z.max 0 d)%Z) →
     cache (advance d c) !! k = cache c !! k) ∧
  (∀ (c : CachingUserService S) o first s1 d,
     let o' := options (default 1 (page o)) (default 10 (results_ o)) in
     cache c !! key_of o = None →
     fetchUsers o' (service c) = (Resolved (Some first), s1) →
     (cacheTTL c ≤ d)%Z →
     let c1 := (Caching_fetchUsers o c).2 in
     let c2 := advance d c1 in
     cache c1 !! key_of o = Some (results first) ∧
     cache c2 !! key_of o = None ∧
     Caching_fetchUsers_enter o c2 = AwaitSuper (key_of o) o' ∧
     (Caching_fetchUsers o c2).1 = (fetchUsers o' s1).1 ∧
     service (Caching_fetchUsers o c2).2 = (fetchUsers o' s1).2).
Proof.
  split; [|split; [|split]].
  - intros c key. simpl. split; [apply lookup_delete_eq|].
    intros k Hk. by apply lookup_delete_ne.
  - intros c d dl key. apply advance_due.
  - intros c d k. apply advance_other.
  - intros c o first s1 d o' Hmiss Hup Hd c1 c2. subst c1 c2.
    rewrite (miss_stores _ _ _ _ Hmiss Hup). simpl snd.
    set (c1 := setupCacheExpiration _ _).
    assert (Hgone : cache (advance d c1) !! key_of o = None).
    { apply (advance_due c1 d (now c + Z.max 0 (cacheTTL c))%Z).
      - subst c1. simpl. apply elem_of_app. right. by left.
      - subst c1. simpl. lia. }
    split; [apply lookup_insert_eq|].
    split; [exact Hgone|].
    split; [by apply enter_miss|].
    destruct (miss_delegates _ o Hgone) as [-> ->].
    by rewrite advance_service.
Qed.

Lemma expiry_evicts_and_next_call_refetches_witness :
  cache (advance 1100 after_first) !! key_of page1 = None.
Proof.
  apply (proj2 (proj2 (proj2 expiry_evicts_and_next_call_refetches))
           fresh_v14 page1 body_v14
           (UserService_fetchUsers page1 net_v14).2 1100);
    vm_compute; done.
Defined.

(** C4, as the specification states it, fails: invalidating page 1 at
    500 ms leaves the timer set at 0 ms in the loop; the entry stored again
    at 600 ms is removed by that timer at 1000 ms, 400 ms into its life of
    1000 ms.  The same holds after [clearCache]. *)
Lemma stale_timer_evicts_fresh_entry :
  timers invalidated = [(1000, "page_1_10")] ∧
  timers (clearCache (advance 500 after_first)) = [(1000, "page_1_10")] ∧
  now refetched = 600 ∧
  cache refetched !! "page_1_10" = Some [john] ∧
  now at_1000 = 1000 ∧
  cache at_1000 !! "page_1_10" = None.
Proof. vm_compute. done. Qed.

(** C4, amended: [invalidatePage] and [clearCache] remove entries and touch
    nothing else; every expiry timer stays in the loop.  When such a timer
    comes due, the key it was set for is absent afterwards, whatever entry
    the key held by then; on a key that is absent its callback changes
    nothing. *)
Theorem invalidation_keeps_timers_armed
  {S : Type} `{!BaseUserService S} (c : CachingUserService S) :
  (∀ p r, timers (invalidatePage p r c) = timers c ∧
          now (invalidatePage p r c) = now c ∧
          service (invalidatePage p r c) = service c ∧
          cache (invalidatePage p r c) = delete (getCacheKey p r) (cache c)) ∧
  (timers (clearCache c) = timers c ∧ now (clearCache c) = now c ∧
   service (clearCache c) = service c ∧ cache (clearCache c) = ∅) ∧
  (∀ d dl key, (dl, key) ∈ timers c → (dl ≤ now c + Z.max 0 d)%Z →
               cache (advance d c) !! key = None) ∧
  (∀ key, cache c !! key = None → expire key c = c).
Proof.
  split; [done|]. split; [done|].
  split; [intros d dl key; apply advance_due|].
  intros key. apply expire_absent.
Qed.

Lemma invalidation_keeps_timers_armed_witness :
  cache (advance 400 refetched) !! "page_1_10" = None.
Proof.
  apply (proj1 (proj2 (proj2 (invalidation_keeps_timers_armed refetched)))
           400 1000 "page_1_10").
  - vm_compute. apply list_elem_of_here.
  - vm_compute. discriminate.
Defined.

(** C6: [invalidatePage] deletes the entry of the key of its arguments and
    nothing else.  With entries for two different parameter pairs, the first
    pair's entry is gone afterwards and the second pair's is as before, so a
    request for the second pair is still served from the cache; every other
    key is as before as well.  Invalidating a pair that has no entry leaves
    the decorator as it was. *)
Theorem invalidation_is_key_scoped
  {S : Type} `{!BaseUserService S} (c : CachingUserService S) :
  (∀ p1 r1 p2 r2 stored1 stored2,
     (p1, r1) ≠ (p2, r2) →
     cache c !! getCacheKey p1 r1 = Some stored1 →
     cache c !! getCacheKey p2 r2 = Some stored2 →
     let c' := invalidatePage p1 r1 c in
     cache c' !! getCacheKey p1 r1 = None ∧
     cache c' !! getCacheKey p2 r2 = Some stored2 ∧
     (∀ k, k ≠ getCacheKey p1 r1 → cache c' !! k = cache c !! k) ∧
     Caching_fetchUsers (options p2 r2) c'
       = (Resolved (Some {| results := stored2; info := hit_info p2 r2 |}), c')) ∧
  (∀ p r, cache c !! getCacheKey p r = None → invalidatePage p r c = c).
Proof.
  split.
  - intros p1 r1 p2 r2 stored1 stored2 Hne H1 H2 c'.
    assert (Hk : getCacheKey p1 r1 ≠ getCacheKey p2 r2)
      by by apply getCacheKey_ne.
    assert (H2' : cache c' !! getCacheKey p2 r2 = Some stored2).
    { subst c'. simpl. by rewrite lookup_delete_ne. }
    split; [apply lookup_delete_eq|].
    split; [exact H2'|].
    split.
    + intros k Hkne. subst c'. simpl. by rewrite lookup_delete_ne.
    + by apply (hit_returns c' (options p2 r2)).
  - intros p r Hnone. unfold invalidatePage, set_cache.
    rewrite delete_id by done. by destruct c.
Qed.

Lemma invalidation_is_key_scoped_witness :
  cache (invalidatePage 1 10 two_pages) !! getCacheKey 2 10 = Some [john] ∧
  invalidatePage 7 10 after_first = after_first.
Proof.
  split.
  - refine (proj1 (proj2 (proj1 (invalidation_is_key_scoped two_pages)
                              1 10 2 10 [john] [john] _ _ _))).
    + intros [=].
    + vm_compute. reflexivity.
    + vm_compute. reflexivity.
  - apply (proj2 (invalidation_is_key_scoped after_first) 7 10).
    vm_compute. reflexivity.
Defined.

(** *** The fetch client *)

Lemma HttpError_inj s s' : HttpError s = HttpError s' → s = s'.
Proof.
  unfold HttpError. intros [= H]. simpl in H. by apply (inj pretty).
Qed.

(** C7: when the response to the request is not [ok], [fetchUsers] of the
    fetch client rejects with the error made from the status of the
    response, from which the status can be read back; it has sent exactly
    the one request and printed the error's message. *)
Theorem http_error_propagates_without_retry
  (o : FetchUsersOptions) (w : Network) (response : Response) :
  let url := request_url (default 1 (page o)) (default 10 (results_ o)) in
  respond w (requests w) url = Resolved response →
  ok response = false →
  (UserService_fetchUsers o w).1 = Rejected (HttpError (status response)) ∧
  requests (UserService_fetchUsers o w).2 = (requests w ++ [url])%list ∧
  console (UserService_fetchUsers o w).2
    = (console w ++ ["Error fetching users: HTTP error! status: "
                     +:+ pretty (status response)])%list ∧
  (∀ s, HttpError s = HttpError (status response) → s = status response).
Proof.
  intros url Hresp Hok. unfold UserService_fetchUsers, fetch. fold url.
  rewrite Hresp. simpl. rewrite Hok. simpl.
  repeat split. intros s. apply HttpError_inj.
Qed.

Lemma http_error_propagates_without_retry_witness :
  (UserService_fetchUsers no_options net_500).1 = Rejected (HttpError 500).
Proof.
  refine (proj1 (http_error_propagates_without_retry no_options net_500
                   {| ok := false; status := 500;
                      json := Rejected (ErrorObj "no body") |} _ _));
    reflexivity.
Defined.

(** C9: when what is thrown inside the [try] block of the fetch client is
    not an instance of [Error], the client's [fetchUsers] resolves with
    [undefined]; the decorator over that client, on a miss, then resolves
    with [undefined] too and leaves cache and timers as they were. *)
Theorem non_error_throw_resolves_undefined
  (o : FetchUsersOptions) (w : Network) (v : string) :
  let p := default 1 (page o) in
  let r := default 10 (results_ o) in
  UserService_try (respond w (requests w) (request_url p r))
    = Rejected (NonError v) →
  (UserService_fetchUsers o w).1 = Resolved None ∧
  console (UserService_fetchUsers o w).2 = console w ∧
  (∀ c : CachingUserService Network,
     service c = w → cache c !! key_of o = None →
     (Caching_fetchUsers o c).1 = Resolved None ∧
     cache (Caching_fetchUsers o c).2 = cache c ∧
     timers (Caching_fetchUsers o c).2 = timers c).
Proof.
  intros p r Hthrow.
  assert (Hclient : ∀ o', default 1 (page o') = p → default 10 (results_ o') = r →
            (UserService_fetchUsers o' w).1 = Resolved None ∧
            console (UserService_fetchUsers o' w).2 = console w).
  { intros o' Hp Hr. unfold UserService_fetchUsers, fetch.
    rewrite Hp, Hr, Hthrow. done. }
  split; [by apply Hclient|]. split; [by apply Hclient|].
  intros c Hsvc Hmiss. unfold Caching_fetchUsers.
  rewrite (enter_miss _ _ Hmiss). unfold Decorator_fetchUsers.
  rewrite Hsvc. fold p r.
  destruct (Hclient (options p r) eq_refl eq_refl) as [Hres _].
  change (fetchUsers (options p r) w) with (UserService_fetchUsers (options p r) w).
  destruct (UserService_fetchUsers (options p r) w) as [res w'].
  simpl in Hres. subst res. done.
Qed.

Lemma non_error_throw_resolves_undefined_witness :
  (Caching_fetchUsers page1 (new_CachingUserService net_string (Some 1000))).1
  = Resolved None.
Proof.
  refine (proj1 (proj2 (proj2 (non_error_throw_resolves_undefined
                                 page1 net_string "offline" _))
                   (new_CachingUserService net_string (Some 1000)) _ _));
    reflexivity.
Defined.

(** *** The list component *)

Lemma client_throw o w e :
  UserService_try
    (respond w (requests w)
       (request_url (default 1 (page o)) (default 10 (results_ o))))
  = Rejected e →
  (UserService_fetchUsers o w).1
  = if instanceof_Error e then Rejected e else Resolved None.
Proof.
  intros H. unfold UserService_fetchUsers, fetch. rewrite H.
  by destruct (instanceof_Error e).
Qed.

(** The service of the component, [createUserService] with caching, asked
    for a page it has no entry for, when the fetch client's [try] block
    throws. *)
Lemma component_call_throw (c : CachingUserService Network) p r e :
  cache c !! getCacheKey p r = None →
  UserService_try
    (respond (service c) (requests (service c)) (request_url p r))
  = Rejected e →
  (fetchUsers (options p r) (inr c : Network + CachingUserService Network)).1
  = if instanceof_Error e then Rejected e else Resolved None.
Proof.
  intros Hmiss Hthrow.
  destruct (miss_delegates c (options p r) Hmiss) as [Hres _].
  simpl in Hres.
  change (fetchUsers (options p r) (service c))
    with (UserService_fetchUsers (options p r) (service c)) in Hres.
  rewrite (client_throw (options p r) (service c) e Hthrow) in Hres.
  simpl. destruct (Caching_fetchUsers (options p r) c) as [res c'].
  simpl in *. by subst res.
Qed.

(** C10, as stated, fails for a fetch failure that is not an [Error]: the
    component's own service, over a network whose [fetch] rejects with a
    thrown string, sends the request, the request fails, and yet [hasMore]
    is still set afterwards, no error is set, and the next [loadUsers]
    asks for page 1 again. *)
Lemma non_error_failure_keeps_hasMore :
  let svc := createUserService (Some true) (Some 300000) net_string in
  let out := UserList.loadUsers UserList.initial svc in
  respond net_string [] (request_url 1 10) = Rejected (NonError "offline") ∧
  requests (network_of out.2) = [request_url 1 10] ∧
  UserList.hasMore out.1 = true ∧
  UserList.error out.1 = None ∧
  (UserList.loadUsers_enter out.1).2 = Some (options 1 10).
Proof. vm_compute. done. Qed.

(** C10, amended: [loadUsers] does nothing and sends no request while
    [loading] is set or [hasMore] is cleared; otherwise it sets [loading],
    clears the error and asks the service for the current page, ten users a
    page.  When the awaited call is rejected, [hasMore] is cleared and
    [loading] reset, so [loadUsers] does nothing from then on, until
    [retryLoading] sets [hasMore] again and thereby sends the request for
    the same page.  With the component's service the awaited call is
    rejected exactly when what the fetch client's [try] block threw is an
    [Error]; a failure that throws anything else resolves the call with
    [undefined], and then [hasMore] stays set, no error is set, and the
    next [loadUsers] asks for the same page again.  [currentPage] changes
    only when the awaited call resolved with a response whose list of users
    is not empty, and then it grows by one. *)
Theorem loadUsers_guard_rejection_and_paging (s : UserList.State) :
  (UserList.loading s = true ∨ UserList.hasMore s = false →
   UserList.loadUsers_enter s = (s, None) ∧
   ∀ (S : Type) (H : BaseUserService S) (svc : S),
     UserList.loadUsers s svc = (s, svc)) ∧
  (UserList.loading s = false → UserList.hasMore s = true →
   UserList.loadUsers_enter s
   = ({| UserList.users := UserList.users s;
         UserList.currentPage := UserList.currentPage s;
         UserList.loading := true; UserList.error := None;
         UserList.hasMore := true |},
      Some (options (UserList.currentPage s) 10))) ∧
  (∀ e,
     let s' := UserList.loadUsers_resume (Rejected e) s in
     UserList.hasMore s' = false ∧ UserList.loading s' = false ∧
     UserList.currentPage s' = UserList.currentPage s ∧
     UserList.loadUsers_enter s' = (s', None) ∧
     UserList.hasMore (UserList.retryLoading_enter s').1 = true ∧
     (UserList.retryLoading_enter s').2
       = Some (options (UserList.currentPage s) 10)) ∧
  (∀ (c : CachingUserService Network) (e : thrown),
     UserList.loading s = false → UserList.hasMore s = true →
     cache c !! getCacheKey (UserList.currentPage s) 10 = None →
     UserService_try
       (respond (service c) (requests (service c))
          (request_url (UserList.currentPage s) 10)) = Rejected e →
     let s' := (UserList.loadUsers s
                  (inr c : Network + CachingUserService Network)).1 in
     UserList.loading s' = false ∧
     UserList.currentPage s' = UserList.currentPage s ∧
     (instanceof_Error e = true →
      UserList.hasMore s' = false ∧
      UserList.error s' = Some (message_of e) ∧
      UserList.loadUsers_enter s' = (s', None)) ∧
     (instanceof_Error e = false →
      UserList.hasMore s' = true ∧ UserList.error s' = None ∧
      (UserList.loadUsers_enter s').2
        = Some (options (UserList.currentPage s) 10))) ∧
  UserList.currentPage (UserList.loadUsers_enter s).1
    = UserList.currentPage s ∧
  (∀ r,
     UserList.currentPage (UserList.loadUsers_resume r s)
       ≠ UserList.currentPage s →
     ∃ response,
       r = Resolved (Some response) ∧ results response ≠ [] ∧
       UserList.currentPage (UserList.loadUsers_resume r s)
         = UserList.currentPage s + 1) ∧
  (∀ response,
     results response ≠ [] →
     UserList.currentPage
       (UserList.loadUsers_resume (Resolved (Some response)) s)
       = UserList.currentPage s + 1).
Proof.
  assert (Hstart : UserList.loading s = false → UserList.hasMore s = true →
            UserList.loadUsers_enter s
            = ({| UserList.users := UserList.users s;
                  UserList.currentPage := UserList.currentPage s;
                  UserList.loading := true; UserList.error := None;
                  UserList.hasMore := true |},
               Some (options (UserList.currentPage s) 10))).
  { intros Hl Hm. unfold UserList.loadUsers_enter. by rewrite Hl, Hm. }
  split; [|split; [|split; [|split; [|split; [|split]]]]].
  - intros Hguard.
    assert (Henter : UserList.loadUsers_enter s = (s, None)).
    { unfold UserList.loadUsers_enter.
      destruct Hguard as [-> | ->]; [done|]. by rewrite orb_true_r. }
    split; [done|]. intros S H svc. unfold UserList.loadUsers.
    by rewrite Henter.
  - exact Hstart.
  - intros e s'. subst s'.
    unfold UserList.retryLoading_enter, UserList.loadUsers_enter. simpl.
    done.
  - intros c e Hl Hm Hmiss Hthrow s'. subst s'.
    unfold UserList.loadUsers. rewrite (Hstart Hl Hm).
    pose proof (component_call_throw c _ _ e Hmiss Hthrow) as Hcall.
    destruct (fetchUsers (options (UserList.currentPage s) 10)
                (inr c : Network + CachingUserService Network))
      as [res svc'].
    simpl in Hcall. subst res.
    destruct e as [m|v]; simpl; repeat split; try done.
  - unfold UserList.loadUsers_enter.
    by destruct (UserList.loading s || negb (UserList.hasMore s)).
  - intros [[response|]|e]; simpl; [|done..].
    case_bool_decide as Hlen; simpl; [done|]. intros _.
    exists response. repeat split. intros Hnil. by rewrite Hnil in Hlen.
  - intros response Hne. simpl.
    rewrite bool_decide_eq_false_2; [done|].
    by destruct (results response).
Qed.

Lemma loadUsers_guard_rejection_and_paging_witness :
  UserList.loadUsers_enter
    (UserList.loadUsers_resume (Rejected (HttpError 500))
       (UserList.loadUsers_enter UserList.initial).1)
  = (UserList.loadUsers_resume (Rejected (HttpError 500))
       (UserList.loadUsers_enter UserList.initial).1, None)
  ∧ UserList.hasMore
      (UserList.loadUsers UserList.initial
         (inr (new_CachingUserService net_500 (Some 300000))
          : Network + CachingUserService Network)).1 = false
  ∧ UserList.hasMore
      (UserList.loadUsers UserList.initial
         (inr (new_CachingUserService net_string (Some 300000))
          : Network + CachingUserService Network)).1 = true
  ∧ UserList.currentPage
      (UserList.loadUsers_resume (Resolved (Some body_v14)) UserList.initial)
    = 2.
Proof.
  split; [|split; [|split]].
  - refine (proj1 (proj1 (loadUsers_guard_rejection_and_paging
                            (UserList.loadUsers_resume
                               (Rejected (HttpError 500))
                               (UserList.loadUsers_enter UserList.initial).1))
                     _)).
    right. reflexivity.
  - refine (proj1 (proj1 (proj2 (proj2
              (proj1 (proj2 (proj2 (proj2
                 (loadUsers_guard_rejection_and_paging UserList.initial))))
                 (new_CachingUserService net_500 (Some 300000))
                 (HttpError 500) _ _ _ _))) _));
      reflexivity.
  - refine (proj1 (proj2 (proj2 (proj2
              (proj1 (proj2 (proj2 (proj2
                 (loadUsers_guard_rejection_and_paging UserList.initial))))
                 (new_CachingUserService net_string (Some 300000))
                 (NonError "offline") _ _ _ _))) _));
      reflexivity.
  - refine (proj2 (proj2 (proj2 (proj2 (proj2 (proj2
              (loadUsers_guard_rejection_and_paging UserList.initial))))))
              body_v14 _).
    discriminate.
Defined.

(** *** The debounced function *)

Module DebounceProps.
Import Debounce.
Local Close Scope string_scope.
Section facts.
Context {Args : Type}.
Variable wait : Z.
Abbreviation W := (Z.max 0 wait).
Implicit Types (w : World Args) (p : option (Z * Args))
  (calls : list (Z * Args)).

(** A call clears the timer of the call before and sets its own. *)
Lemma call_tidy w p a :
  tidy W w p →
  tidy W (executedFunction wait a w) (Some (clock w, a)) ∧
  invoked (executedFunction wait a w) = invoked w ∧
  clock (executedFunction wait a w) = clock w.
Proof.
  intros Htidy. split; [|done].
  exists (next_id w). split; [|done]. simpl.
  destruct p as [c|]; simpl in Htidy.
  - destruct Htidy as (h & -> & ->). simpl.
    rewrite filter_cons_False; [done|]. simpl. by intros ?.
  - rewrite Htidy. by destruct (timeout w).
Qed.

(** When the loop gets control, the timer runs if its deadline has come. *)
Lemma advance_tidy w p t :
  tidy W w p →
  let t' := Z.max (clock w) t in
  tidy W (advance_to t w) (still W p t') ∧
  invoked (advance_to t w) = invoked w ++ emitted W p t' ∧
  clock (advance_to t w) = t'.
Proof.
  intros Htidy t'. unfold advance_to. fold t'.
  destruct p as [c|]; simpl in Htidy |- *.
  - destruct Htidy as (h & Hq & Hto). rewrite Hq.
    case_bool_decide as Hdue.
    + rewrite filter_cons_True by done. rewrite filter_nil.
      cbn [fire]. unfold pending. rewrite Hq. simpl.
      rewrite bool_decide_eq_true_2 by apply list_elem_of_here.
      simpl. rewrite Hq, Hto. simpl.
      rewrite filter_cons_False; [|simpl; by intros ?].
      rewrite filter_nil. simpl. done.
    + rewrite filter_cons_False by done. rewrite filter_nil. simpl.
      rewrite app_nil_r. split; [|done]. by exists h.
  - rewrite Htidy. simpl. by rewrite app_nil_r.
Qed.

Lemma call_at_tidy w p c :
  tidy W w p →
  let t' := Z.max (clock w) c.1 in
  tidy W (call_at wait w c) (Some (t', c.2)) ∧
  invoked (call_at wait w c) = invoked w ++ emitted W p t' ∧
  clock (call_at wait w c) = t'.
Proof.
  intros Htidy t'. unfold call_at.
  destruct (advance_tidy w p c.1 Htidy) as (Ht & Hi & Hc).
  destruct (call_tidy _ _ c.2 Ht) as (Ht' & Hi' & Hc').
  rewrite Hc in Ht'. rewrite Hi', Hc', Hi, Hc. done.
Qed.

Lemma run_tidy calls w p :
  tidy W w p → ∃ p', tidy W (run wait calls w) p'.
Proof.
  revert w p. induction calls as [|c calls IH]; intros w p Htidy.
  - by exists p.
  - simpl. destruct (call_at_tidy w p c Htidy) as (Ht & _). by eapply IH.
Qed.

Lemma tidy_at_most_one w p : tidy W w p → (length (queue w) ≤ 1)%nat.
Proof.
  destruct p as [c|]; simpl.
  - intros (h & -> & _). done.
  - intros ->. simpl. lia.
Qed.

Lemma call_at_clock w c : clock (call_at wait w c) = Z.max (clock w) c.1.
Proof. done. Qed.

Lemma chronological_bounds t0 calls stop :
  chronological t0 calls stop →
  t0 ≤ stop ∧ ∀ c, c ∈ calls → t0 ≤ c.1 ∧ c.1 ≤ stop.
Proof.
  revert t0. induction calls as [|c0 calls IH]; intros t0; simpl.
  - intros Hle. split; [done|]. by intros c ?%elem_of_nil.
  - intros [Hle Hrest]. destruct (IH _ Hrest) as [Hstop Hall].
    split; [lia|]. intros c [->|Hin]%elem_of_cons; [lia|].
    destruct (Hall c Hin). lia.
Qed.

Lemma run_clock init c w stop :
  chronological (clock w) (init ++ [c]) stop →
  clock (run wait init w) ≤ c.1.
Proof.
  revert w. induction init as [|c0 init IH]; intros w; simpl.
  - by intros [? _].
  - intros [Hle Hrest]. apply IH. rewrite call_at_clock.
    by replace (Z.max (clock w) c0.1) with c0.1 by lia.
Qed.

(** What has been invoked by the end of a session. *)
Lemma run_invoked calls w p stop :
  tidy W w p → chronological (clock w) calls stop →
  invoked (advance_to stop (run wait calls w))
  = invoked w ++ trailing_edge W (option_list p ++ calls) stop.
Proof.
  revert w p. induction calls as [|c calls IH]; intros w p Htidy Hchr.
  - simpl in Hchr. simpl run.
    destruct (advance_tidy w p stop Htidy) as (_ & -> & _).
    replace (Z.max (clock w) stop) with stop by lia.
    destruct p as [pc|]; simpl; by rewrite ?app_nil_r.
  - destruct Hchr as [Hle Hrest]. simpl run.
    destruct (call_at_tidy w p c Htidy) as (Ht & Hi & Hc).
    replace (Z.max (clock w) c.1) with c.1 in Ht, Hi, Hc by lia.
    rewrite <- Hc in Hrest.
    rewrite (IH _ _ Ht Hrest), Hi. simpl option_list.
    rewrite <- app_assoc. f_equal.
    destruct c as [tc a]. destruct p as [pc|]; simpl; done.
Qed.

(** After a call the loop holds the timer of that call and no other. *)
Lemma run_snoc_tidy init c w p stop :
  tidy W w p → chronological (clock w) (init ++ [c]) stop →
  tidy W (run wait (init ++ [c]) w) (Some c).
Proof.
  intros Htidy Hchr. unfold run. rewrite foldl_app. simpl.
  fold (run wait init w).
  destruct (run_tidy init w p Htidy) as [p' Hp'].
  destruct (call_at_tidy _ _ c Hp') as (Ht & _).
  pose proof (run_clock _ _ _ _ Hchr) as Hclock.
  replace (Z.max (clock (run wait init w)) c.1) with c.1 in Ht by lia.
  by destruct c.
Qed.

(** Properties of the specification's debounce. *)
Lemma trailing_edge_burst calls c stop :
  burst W (calls ++ [c]) →
  trailing_edge W (calls ++ [c]) stop = emitted W (Some c) stop.
Proof.
  induction calls as [|c0 calls IH]; simpl.
  - intros _. by rewrite app_nil_r.
  - intros [Hnext Hrest]. rewrite (IH Hrest).
    destruct calls as [|c1 calls]; simpl in Hnext |- *;
      by rewrite bool_decide_eq_false_2 by lia.
Qed.

Lemma trailing_edge_sublist calls stop :
  trailing_edge W calls stop `sublist_of` map (λ c, (c.1 + W, c.2)) calls.
Proof.
  induction calls as [|c calls IH]; simpl; [constructor|].
  case_bool_decide; simpl; by constructor.
Qed.

Lemma trailing_edge_pause t0 calls stop t a :
  chronological t0 calls stop →
  (t, a) ∈ trailing_edge W calls stop →
  ∃ init tc rest,
    calls = init ++ (tc, a) :: rest ∧ t = tc + W ∧ t ≤ stop ∧
    ∀ c, c ∈ rest → t ≤ c.1.
Proof.
  revert t0. induction calls as [|c0 calls IH]; intros t0 Hchr; simpl.
  - by intros ?%elem_of_nil.
  - destruct Hchr as [Hle Hrest].
    intros [Hhere|Hlater]%elem_of_app.
    + case_bool_decide as Hnext; [|by apply elem_of_nil in Hhere].
      apply list_elem_of_singleton in Hhere as [= -> ->].
      destruct c0 as [tc a0]. exists [], tc, calls. simpl in *.
      destruct (chronological_bounds _ _ _ Hrest) as [Hstop Hall].
      split; [done|]. split; [done|].
      destruct calls as [|c1 calls].
      * split; [done|]. by intros c ?%elem_of_nil.
      * destruct Hrest as [H01 Hrest'].
        destruct (chronological_bounds _ _ _ Hrest') as [Hstop' Hall'].
        split; [lia|]. intros c [->|Hin]%elem_of_cons; [done|].
        destruct (Hall' c Hin). lia.
    + destruct (IH _ Hrest Hlater) as (init & tc & rest & -> & Ht & Hs & Hall).
      exists (c0 :: init), tc, rest. done.
Qed.

(** C8: the function [debounce] returns is a trailing-edge debounce.  For
    calls at times that do not go back, observed until [stop]: what it has
    invoked is what the specification's debounce prescribes; every
    invocation carries the arguments of a call, comes one window after
    that call, and no call was made in between; each call leads to at most
    one invocation, in the order of the calls; the loop never holds more
    than one timer, and after a call it holds the timer of that call with
    a full window to run; a burst of calls leads to one invocation, with
    the arguments of its last call, once the window has passed after that
    call, and to none before. *)
Theorem debounce_is_trailing_edge (t0 : Z) calls (stop : Z) :
  chronological t0 calls stop →
  let w := advance_to stop (run wait calls (start t0)) in
  invoked w = trailing_edge W calls stop ∧
  (∀ t a, (t, a) ∈ invoked w →
     ∃ init tc rest,
       calls = init ++ (tc, a) :: rest ∧ t = tc + W ∧ t ≤ stop ∧
       ∀ c, c ∈ rest → t ≤ c.1) ∧
  invoked w `sublist_of` map (λ c, (c.1 + W, c.2)) calls ∧
  (length (queue (run wait calls (start t0))) ≤ 1)%nat ∧
  (∀ init c, calls = init ++ [c] →
     map (λ tm, (deadline tm, captured tm))
       (queue (run wait calls (start t0))) = [(c.1 + W, c.2)] ∧
     (burst W calls →
      invoked w = if bool_decide (c.1 + W ≤ stop)
                  then [(c.1 + W, c.2)] else [])).
Proof.
  intros Hchr w.
  assert (Hstart : tidy W (start t0 : World Args) None) by done.
  assert (Hinv : invoked w = trailing_edge W calls stop).
  { subst w. by rewrite (run_invoked calls (start t0) None stop Hstart Hchr). }
  split; [exact Hinv|].
  split; [rewrite Hinv; intros t a; by eapply trailing_edge_pause|].
  split; [rewrite Hinv; apply trailing_edge_sublist|].
  split.
  { destruct (run_tidy calls (start t0) None Hstart) as [p' Hp'].
    by eapply tidy_at_most_one. }
  intros init c ->. split.
  - destruct (run_snoc_tidy init c (start t0) None stop Hstart Hchr)
      as (h & -> & _). done.
  - intros Hburst. rewrite Hinv. by apply trailing_edge_burst.
Qed.
End facts.

(** Three scroll events 50 ms apart with a window of 200 ms, observed until
  400 ms: one invocation, at 300 ms, with the last event. *)
Lemma debounce_is_trailing_edge_witness :
invoked (advance_to 400
           (run 200 [(0, "e1"); (50, "e2"); (100, "e3")] (start 0)))
= [(300, "e3")].
Proof.
refine (proj1 (debounce_is_trailing_edge 200 0
                 [(0, "e1"); (50, "e2"); (100, "e3")] 400 _)).
simpl. lia.
Defined.
End DebounceProps.


(** * Further properties of the code *)

(** *** The fetch client: what one call does *)

Lemma client_call_facts (o : FetchUsersOptions) (w : Network) :
  let url := request_url (default 1 (page o)) (default 10 (results_ o)) in
  let out := UserService_fetchUsers o w in
  requests out.2 = (requests w ++ [url])%list ∧
  respond out.2 = respond w ∧
  (∀ body, out.1 = Resolved (Some body) →
     ∃ response, respond w (requests w) url = Resolved response ∧
                 ok response = true ∧ json response = Resolved body).
Proof.
  intros url out. subst out. unfold UserService_fetchUsers, fetch. fold url.
  destruct (respond w (requests w) url) as [response|[m|v]] eqn:Hresp; simpl;
    [destruct (ok response) eqn:Hok; simpl;
       [destruct (json response) as [body|[m|v]] eqn:Hjson; simpl|]|..];
    repeat split; try done.
  intros ? [= <-]. by eauto.
Qed.

(** X1: whatever the network answers, one call of the client sends exactly
    one request, to the URL of its page and page size, and leaves the
    network's behaviour alone.  It rejects only with instances of [Error],
    namely the one its [try] block threw, and prints that error's message
    once; when it resolves it prints nothing; it resolves with a body
    exactly when the response was [ok] and decoded to that body. *)
Theorem client_call_footprint (o : FetchUsersOptions) (w : Network) :
  let url := request_url (default 1 (page o)) (default 10 (results_ o)) in
  let out := UserService_fetchUsers o w in
  requests out.2 = (requests w ++ [url])%list ∧
  respond out.2 = respond w ∧
  (∀ e, out.1 = Rejected e →
     instanceof_Error e = true ∧
     UserService_try (respond w (requests w) url) = Rejected e ∧
     console out.2
       = (console w ++ ["Error fetching users: " +:+ message_of e])%list) ∧
  (∀ v, out.1 = Resolved v → console out.2 = console w) ∧
  (∀ body, out.1 = Resolved (Some body) ↔
     ∃ response, respond w (requests w) url = Resolved response ∧
                 ok response = true ∧ json response = Resolved body).
Proof.
  intros url out. subst out. unfold UserService_fetchUsers, fetch. fold url.
  destruct (respond w (requests w) url) as [response|[m|v]] eqn:Hresp; simpl;
    [destruct (ok response) eqn:Hok; simpl;
       [destruct (json response) as [body|[m|v]] eqn:Hjson; simpl|]|..];
    repeat split; try done;
    try (by intros ? [= <-]);
    try (intros [= <-]; by eauto);
    try (intros (? & [= <-] & ? & ?); congruence);
    try (by intros (? & [=] & ?));
    try (match goal with
         | H : Rejected _ = Rejected _ |- _ => by injection H as <-
         end).
Qed.

Lemma client_call_footprint_witness :
  console (UserService_fetchUsers page1 net_500).2
  = ["Error fetching users: HTTP error! status: 500"].
Proof.
  refine (proj2 (proj2 (proj1 (proj2 (proj2
            (client_call_footprint page1 net_500))) (HttpError 500) _))).
  reflexivity.
Defined.

(** *** Request URLs and cache keys *)

Lemma pretty_N_go_avoids c x s :
  (∀ d, Ascii.eqb c (pretty_N_char d) = false) →
  occurs c s = false → occurs c (pretty_N_go x s) = false.
Proof.
  intros Hc. revert s. induction (N.lt_wf_0 x) as [x _ IH]; intros s Hs.
  destruct (decide (x = 0%N)) as [->|Hx].
  - by rewrite pretty_N_go_0.
  - rewrite pretty_N_go_step by lia.
    apply IH; [apply N.div_lt; lia|].
    cbn [occurs]. by rewrite Hc.
Qed.

Lemma pretty_Z_avoids c (z : Z) :
  (∀ d, Ascii.eqb c (pretty_N_char d) = false) →
  Ascii.eqb c "-"%char = false →
  occurs c (pretty z) = false.
Proof.
  intros Hc Hdash.
  assert (HN : ∀ x : N, occurs c (pretty x) = false).
  { intros x. unfold pretty, pretty_N. case_decide.
    - pose proof (Hc 0%N) as H0. change (pretty_N_char 0) with "0"%char in H0.
      cbn [occurs]. by rewrite H0.
    - by apply pretty_N_go_avoids. }
  destruct z as [|p|p]; [apply (HN 0%N)|apply HN|].
  change (pretty (Z.neg p)) with ("-" +:+ pretty (N.pos p)).
  rewrite occurs_app, HN. cbn [occurs]. by rewrite Hdash.
Qed.

Lemma pretty_Z_no_amp (z : Z) : occurs "&"%char (pretty z) = false.
Proof.
  apply pretty_Z_avoids; [|done].
  intros d. unfold pretty_N_char. by repeat case_match.
Qed.

Lemma request_url_inj p r p' r' :
  request_url p r = request_url p' r' → p = p' ∧ r = r'.
Proof.
  unfold request_url. intros H. injection H as H.
  pose proof (split_at_sep "&"%char (pretty p)
                ("results=" +:+ pretty r +:+ "&seed=abc") (pretty p')
                ("results=" +:+ pretty r' +:+ "&seed=abc")
                (pretty_Z_no_amp p) (pretty_Z_no_amp p') H) as [Hp H2].
  injection H2 as H2.
  pose proof (split_at_sep "&"%char (pretty r) "seed=abc" (pretty r')
                "seed=abc" (pretty_Z_no_amp r) (pretty_Z_no_amp r') H2)
    as [Hr _].
  split; by apply (inj pretty).
Qed.

(** X2: the URL the client requests determines page and page size, and two
    requests have the same cache key exactly when they have the same URL:
    the cache never answers one upstream request with the entry of
    another. *)
Theorem cache_key_matches_request_url (p r p' r' : Z) :
  (request_url p r = request_url p' r' → p = p' ∧ r = r') ∧
  (getCacheKey p r = getCacheKey p' r' ↔ request_url p r = request_url p' r').
Proof.
  split; [apply request_url_inj|]. split.
  - by intros [-> ->]%getCacheKey_inj.
  - by intros [-> ->]%request_url_inj.
Qed.

Lemma cache_key_matches_request_url_witness :
  request_url 4 25 = request_url 4 25.
Proof.
  apply (proj1 (proj2 (cache_key_matches_request_url 4 25 4 25))).
  reflexivity.
Defined.

(** *** Sessions of the decorator *)

Section cache_session_facts.
Context {S : Type} `{!BaseUserService S}.
Implicit Types (c : CachingUserService S) (o : FetchUsersOptions).

Lemma run_timers_fold_ttl t l c :
  cacheTTL (foldl (λ c' tm, if due t tm then expire tm.2 c' else c') c l)
  = cacheTTL c.
Proof.
  revert c. induction l as [|tm l IH]; intros c; [done|].
  simpl. rewrite IH. by destruct (due t tm).
Qed.

Lemma run_timers_fold_keeps t l c k v :
  cache (foldl (λ c' tm, if due t tm then expire tm.2 c' else c') c l) !! k
    = Some v →
  cache c !! k = Some v.
Proof.
  revert c. induction l as [|tm l IH]; intros c; [done|].
  simpl. intros H%IH. destruct (due t tm); [|done].
  simpl in H. by apply lookup_delete_Some in H as [_ H].
Qed.

(** The three things a request can do to the decorator. *)
Lemma fetch_effect c o :
  (Caching_fetchUsers o c).2 = c ∨
  (∃ s', (Caching_fetchUsers o c).2 = set_service s' c) ∨
  (∃ s' first,
     cache c !! key_of o = None ∧
     (Caching_fetchUsers o c).2
     = setupCacheExpiration (key_of o)
         (set_cache (<[key_of o := results first]> (cache c))
            (set_service s' c))).
Proof.
  destruct (cache c !! key_of o) as [stored|] eqn:Hlook.
  - left. by rewrite (hit_returns _ _ _ Hlook).
  - right. unfold Caching_fetchUsers. rewrite (enter_miss _ _ Hlook).
    unfold Decorator_fetchUsers.
    destruct (fetchUsers _ (service c)) as [[[first|]|e] s']; simpl.
    + right. by exists s', first.
    + left. by exists s'.
    + left. by exists s'.
Qed.

Lemma armed_fetch c o : armed c → armed (Caching_fetchUsers o c).2.
Proof.
  intros [Hentry Hdue].
  destruct (fetch_effect c o) as [->|[(s' & ->)|(s' & first & _ & ->)]];
    [done|done|].
  split; simpl.
  - intros k Hk. destruct (decide (k = key_of o)) as [->|Hne].
    + exists (now c + Z.max 0 (cacheTTL c))%Z.
      apply elem_of_app. right. apply list_elem_of_here.
    + rewrite lookup_insert_ne in Hk by done.
      destruct (Hentry k Hk) as [dl Hdl]. exists dl.
      apply elem_of_app. by left.
  - intros dl k [Hin|Hin]%elem_of_app.
    + by apply (Hdue dl k).
    + apply list_elem_of_singleton in Hin as [= -> ->]. lia.
Qed.

Lemma armed_invalidate c p r : armed c → armed (invalidatePage p r c).
Proof.
  intros [Hentry Hdue]. split; [|done]. simpl. intros k [v Hk].
  apply lookup_delete_Some in Hk as [_ Hk]. by apply Hentry.
Qed.

Lemma armed_clear c : armed c → armed (clearCache c).
Proof.
  intros [Hentry Hdue]. split; [|done]. simpl. intros k [v Hk].
  by rewrite lookup_empty in Hk.
Qed.

Lemma armed_advance c d : armed c → armed (advance d c).
Proof.
  intros [Hentry Hdue]. split.
  - intros k [v Hk]. simpl in Hk.
    pose proof (run_timers_fold_keeps _ _ _ _ _ Hk) as Hbefore.
    destruct (Hentry k (ex_intro _ v Hbefore)) as [dl Hdl].
    exists dl. simpl. apply list_elem_of_filter. split; [|done].
    unfold due. simpl. apply negb_true_iff, bool_decide_eq_false.
    intros Hle.
    pose proof (advance_due c d dl k Hdl Hle) as Hgone.
    simpl in Hgone. congruence.
  - intros dl k Hin. simpl in Hin |- *.
    apply list_elem_of_filter in Hin as [Hnot Hin].
    unfold due in Hnot. simpl in Hnot.
    apply negb_true_iff, bool_decide_eq_false in Hnot.
    destruct (Hdue dl k Hin). unfold run_timers.
    rewrite run_timers_fold_ttl. lia.
Qed.

Lemma armed_run ops c : armed c → armed (run_ops ops c).
Proof.
  revert c. induction ops as [|op ops IH]; intros c Harmed; [done|].
  simpl. apply IH. destruct op; simpl;
    auto using armed_fetch, armed_invalidate, armed_clear, armed_advance.
Qed.

Lemma ttl_run ops c : cacheTTL (run_ops ops c) = cacheTTL c.
Proof.
  revert c. induction ops as [|op ops IH]; intros c; [done|].
  simpl. rewrite IH. destruct op; simpl; try done.
  - by destruct (fetch_effect c o) as [->|[(s' & ->)|(s' & first & _ & ->)]].
  - unfold run_timers. apply run_timers_fold_ttl.
Qed.

Lemma armed_empties c d :
  armed c → (Z.max 0 (cacheTTL c) ≤ d)%Z → cache (advance d c) = ∅.
Proof.
  intros [Hentry Hdue] Hd. apply map_empty. intros k.
  destruct (cache c !! k) as [v|] eqn:Hk.
  - destruct (Hentry k (ex_intro _ v Hk)) as [dl Hdl].
    apply (advance_due c d dl k Hdl). destruct (Hdue dl k Hdl). lia.
  - simpl. by apply run_timers_fold_gone.
Qed.

(** X3: in every state a decorator can reach from its construction, by any
    sequence of requests, invalidations, clears and waits, each entry of the
    cache has a timer in the loop that is due within one TTL, and the TTL
    is the one given at construction (five minutes by default).  So no
    entry is served for longer than the TTL: once the loop has had control
    for a TTL without a request in between, the cache is empty. *)
Theorem entries_never_outlive_ttl
  (svc : S) (ttl : option Z) (ops : list cache_op) :
  let c := run_ops ops (new_CachingUserService svc ttl) in
  armed c ∧
  cacheTTL c = default 300000 ttl ∧
  (∀ d, (Z.max 0 (cacheTTL c) ≤ d)%Z → cache (advance d c) = ∅).
Proof.
  intros c.
  assert (Harmed : armed c).
  { apply armed_run. split; simpl.
    - intros k [v Hk]. by rewrite lookup_empty in Hk.
    - by intros dl k ?%elem_of_nil. }
  split; [done|]. split; [apply ttl_run|].
  intros d. by apply armed_empties.
Qed.

(** X4: a request changes the cache at most under its own key; it leaves the
    clock and the TTL alone and clears no timer; it sets one timer, for its
    own key, exactly when it stores an entry, and it stores one only when
    the key had none.  With a TTL from 1 to 2147483647 ms, the range in
    which the platform's timers take a delay as it is, that timer is due
    one TTL ahead. *)
Theorem fetch_touches_only_its_key c o :
  let c' := (Caching_fetchUsers o c).2 in
  (∀ k, k ≠ key_of o → cache c' !! k = cache c !! k) ∧
  now c' = now c ∧ cacheTTL c' = cacheTTL c ∧
  ((cache c' = cache c ∧ timers c' = timers c) ∨
   (cache c !! key_of o = None ∧ is_Some (cache c' !! key_of o) ∧
    ∃ dl, timers c' = (timers c ++ [(dl, key_of o)])%list ∧
          ((1 ≤ cacheTTL c ∧ cacheTTL c ≤ 2147483647)%Z →
           dl = (now c + cacheTTL c)%Z))).
Proof.
  intros c'. subst c'.
  destruct (fetch_effect c o) as [->|[(s' & ->)|(s' & first & Hnone & ->)]];
    simpl.
  - split; [done|]. repeat split. by left.
  - split; [done|]. repeat split. by left.
  - split; [intros k Hk; by rewrite lookup_insert_ne|].
    repeat split. right. rewrite lookup_insert_eq.
    split; [done|]. split; [by eauto|].
    eexists. split; [done|]. lia.
Qed.

(** X5: two requests for a key that has no entry, the second made while the
    first still awaits the wrapped service, both reach the wrapped service.
    When both are answered, in whichever order the two calls resume, each
    call returns its own answer, the entry is the list of users of the
    answer that resumed last, the other keys are as before, and the loop
    holds two more timers, both for this key. *)
Theorem overlapping_misses_both_go_upstream c o first second s1 s2 :
  let o' := options (default 1 (page o)) (default 10 (results_ o)) in
  let key := key_of o in
  cache c !! key = None →
  fetchUsers o' (service c) = (Resolved (Some first), s1) →
  fetchUsers o' s1 = (Resolved (Some second), s2) →
  let cA := (Decorator_fetchUsers o' c).2 in
  let cB := (Decorator_fetchUsers o' cA).2 in
  let resumed x y :=
    Caching_fetchUsers_resume key (Resolved (Some y))
      (Caching_fetchUsers_resume key (Resolved (Some x)) cB).2 in
  Caching_fetchUsers_enter o c = AwaitSuper key o' ∧
  Caching_fetchUsers_enter o cA = AwaitSuper key o' ∧
  (Decorator_fetchUsers o' c).1 = Resolved (Some first) ∧
  (Decorator_fetchUsers o' cA).1 = Resolved (Some second) ∧
  service cB = s2 ∧
  (∀ x y, (x = first ∧ y = second) ∨ (x = second ∧ y = first) →
     (Caching_fetchUsers_resume key (Resolved (Some x)) cB).1
       = Resolved (Some x) ∧
     (resumed x y).1 = Resolved (Some y) ∧
     cache (resumed x y).2 !! key = Some (results y) ∧
     (∀ k, k ≠ key → cache (resumed x y).2 !! k = cache c !! k) ∧
     service (resumed x y).2 = s2 ∧
     map snd (timers (resumed x y).2)
     = (map snd (timers c) ++ [key; key])%list).
Proof.
  intros o' key Hmiss H1 H2 cA cB resumed.
  subst cA cB resumed. unfold Decorator_fetchUsers. rewrite H1. simpl.
  rewrite H2. simpl.
  split; [by apply enter_miss|]. split; [by apply enter_miss|].
  split; [done|]. split; [done|]. split; [done|].
  intros x y _.
  split; [done|]. split; [done|].
  split; [apply lookup_insert_eq|].
  split.
  - intros k Hk. by rewrite !lookup_insert_ne.
  - split; [done|]. by rewrite !map_app, <- app_assoc.
Qed.

End cache_session_facts.

Lemma fetch_touches_only_its_key_witness :
  cache two_pages !! "page_1_10" = cache after_first !! "page_1_10" ∧
  timers two_pages = [(1000, "page_1_10"); (1000, "page_2_10")].
Proof.
  pose proof (fetch_touches_only_its_key after_first (options 2 10)) as H.
  cbv zeta in H. destruct H as (Hframe & _ & _ & [[_ Hsame]|Hstored]).
  - vm_compute in Hsame. discriminate Hsame.
  - split.
    + refine (Hframe "page_1_10" _). vm_compute. discriminate.
    + destruct Hstored as (_ & _ & dl & Htimers & Hdl).
      change (timers (Caching_fetchUsers (options 2 10) after_first).2)
        with (timers two_pages) in Htimers.
      rewrite Htimers, Hdl; [reflexivity|]. vm_compute. split; discriminate.
Defined.

Lemma overlapping_misses_both_go_upstream_witness :
  let cB := (Decorator_fetchUsers page1
               (Decorator_fetchUsers page1 fresh_two_answers).2).2 in
  cache
    (Caching_fetchUsers_resume "page_1_10" (Resolved (Some body_v14))
       (Caching_fetchUsers_resume "page_1_10" (Resolved (Some body_none))
          cB).2).2 !! "page_1_10" = Some [john].
Proof.
  refine (proj1 (proj2 (proj2
            (proj2 (proj2 (proj2 (proj2 (proj2
               (overlapping_misses_both_go_upstream fresh_two_answers page1
                  body_v14 body_none
                  (UserService_fetchUsers page1 net_two_answers).2
                  (UserService_fetchUsers page1
                     (UserService_fetchUsers page1 net_two_answers).2).2
                  _ _ _)))))
            body_none body_v14 _))));
    [reflexivity|reflexivity|reflexivity|].
  right. split; reflexivity.
Defined.

Lemma entries_never_outlive_ttl_witness :
  cache (advance 1000
           (run_ops [OpFetch page1; OpAdvance 300; OpFetch (options 2 10)]
              fresh_v14)) = ∅.
Proof.
  refine (proj2 (proj2 (entries_never_outlive_ttl net_v14 (Some 1000)
                          [OpFetch page1; OpAdvance 300;
                           OpFetch (options 2 10)])) 1000 _).
  vm_compute. discriminate.
Defined.

(** *** The decorator over the fetch client *)

Lemma answered_later w w' url body :
  answered w url body →
  (∃ more, requests w' = (requests w ++ more)%list) →
  respond w' = respond w →
  answered w' url body.
Proof.
  intros (i & response & Hi & Hresp & Hok & Hjson) [more Hreq] Hsame.
  exists i, response. rewrite Hreq, Hsame.
  pose proof (lookup_lt_Some _ _ _ Hi) as Hlt.
  split; [by rewrite lookup_app_l|].
  split; [|done]. by rewrite take_app_le by lia.
Qed.

Lemma genuine_fetch (c : CachingUserService Network) o :
  genuine c → genuine (Caching_fetchUsers o c).2.
Proof.
  intros Hgen.
  destruct (cache c !! key_of o) as [stored|] eqn:Hlook.
  { by rewrite (hit_returns _ _ _ Hlook). }
  unfold Caching_fetchUsers. rewrite (enter_miss _ _ Hlook).
  unfold Decorator_fetchUsers.
  set (p := default 1 (page o)). set (r := default 10 (results_ o)).
  change (fetchUsers (options p r) (service c))
    with (UserService_fetchUsers (options p r) (service c)).
  destruct (client_call_facts (options p r) (service c))
    as (Hreq & Hsame & Hbody).
  destruct (UserService_fetchUsers (options p r) (service c))
    as [out w'] eqn:Hout. simpl in Hreq, Hsame, Hbody.
  assert (Hlater : ∀ url body, answered (service c) url body →
                               answered w' url body).
  { intros url body Ha. eapply answered_later; [done|by eexists|done]. }
  destruct out as [[first|]|e]; simpl.
  - intros k users. simpl. intros Hk.
    apply lookup_insert_Some in Hk as [[<- <-]|[_ Hk]].
    + exists p, r, first. split; [done|]. split; [|done].
      destruct (Hbody first eq_refl) as (response & Hresp & Hok & Hjson).
      exists (length (requests (service c))), response.
      rewrite Hreq, Hsame.
      split; [by rewrite list_lookup_middle|].
      by rewrite take_app_length.
    + destruct (Hgen k users Hk) as (p' & r' & body & -> & Ha & ->).
      exists p', r', body. auto.
  - intros k users Hk. simpl in Hk.
    destruct (Hgen k users Hk) as (p' & r' & body & -> & Ha & ->).
    exists p', r', body. auto.
  - intros k users Hk. simpl in Hk.
    destruct (Hgen k users Hk) as (p' & r' & body & -> & Ha & ->).
    exists p', r', body. auto.
Qed.

Lemma genuine_smaller (c c' : CachingUserService Network) :
  genuine c → service c' = service c →
  (∀ k v, cache c' !! k = Some v → cache c !! k = Some v) →
  genuine c'.
Proof.
  intros Hgen Hsvc Hsub k users Hk. rewrite Hsvc. by apply Hgen, Hsub.
Qed.

Lemma genuine_run ops (c : CachingUserService Network) :
  genuine c → genuine (run_ops ops c).
Proof.
  revert c. induction ops as [|op ops IH]; intros c Hgen; [done|].
  simpl. apply IH. destruct op; simpl.
  - by apply genuine_fetch.
  - apply (genuine_smaller c); [done|done|]. simpl. intros k v Hk.
    by apply lookup_delete_Some in Hk as [_ Hk].
  - apply (genuine_smaller c); [done|done|]. simpl. intros k v Hk.
    by rewrite lookup_empty in Hk.
  - apply (genuine_smaller c); [done|apply advance_service|].
    intros k v Hk. simpl in Hk. by eapply run_timers_fold_keeps.
Qed.

(** X6: the cache over the fetch client never holds invented data.  In
    every state reachable from construction, each entry is filed under the
    key of some page and page size, and is the list of users of a body the
    network sent, in an [ok] response, to a request for the URL of that
    page and page size. *)
Theorem cache_holds_only_upstream_data
  (w : Network) (ttl : option Z) (ops : list cache_op) :
  let c := run_ops ops (new_CachingUserService w ttl) in
  ∀ k users, cache c !! k = Some users →
    ∃ p r body, k = getCacheKey p r ∧
                answered (service c) (request_url p r) body ∧
                users = results body.
Proof.
  intros c. apply genuine_run. intros k users Hk. simpl in Hk.
  by rewrite lookup_empty in Hk.
Qed.

Lemma cache_holds_only_upstream_data_witness :
  ∃ p r body, "page_1_10" = getCacheKey p r ∧
              answered (service two_pages) (request_url p r) body ∧
              [john] = results body.
Proof.
  refine (cache_holds_only_upstream_data net_v14 (Some 1000)
            [OpFetch page1; OpFetch (options 2 10)] "page_1_10" [john] _).
  vm_compute. reflexivity.
Defined.

(** *** The service [createUserService] returns *)

Lemma client_normalised o w :
  UserService_fetchUsers
    (options (default 1 (page o)) (default 10 (results_ o))) w
  = UserService_fetchUsers o w.
Proof. done. Qed.

Lemma client_success o w response body :
  let url := request_url (default 1 (page o)) (default 10 (results_ o)) in
  respond w (requests w) url = Resolved response →
  ok response = true → json response = Resolved body →
  UserService_fetchUsers o w
  = (Resolved (Some body),
     {| requests := requests w ++ [url]; respond := respond w;
        console := console w |}).
Proof.
  intros url Hresp Hok Hjson. unfold UserService_fetchUsers, fetch. fold url.
  rewrite Hresp. simpl. rewrite Hok. simpl. by rewrite Hjson.
Qed.

(** X7: after [cleanup], whichever service [createUserService] had
    returned, the next request is answered by the network: the service
    settles as the plain client would and leaves the network as the plain
    client would, one request further.  The expiry timers of a caching
    service are still in the loop. *)
Theorem after_cleanup_requests_reach_network
  (s : Network + CachingUserService Network) (o : FetchUsersOptions) :
  let out := fetchUsers o (cleanup s) in
  out.1 = (UserService_fetchUsers o (network_of s)).1 ∧
  network_of out.2 = (UserService_fetchUsers o (network_of s)).2 ∧
  requests (network_of out.2)
  = (requests (network_of s)
     ++ [request_url (default 1 (page o)) (default 10 (results_ o))])%list ∧
  match s, cleanup s with
  | inr c, inr c' => cache c' = ∅ ∧ timers c' = timers c
  | inl w, inl w' => w' = w
  | _, _ => False
  end.
Proof.
  intros out. subst out.
  destruct (client_call_facts o (network_of s)) as (Hreq & _).
  destruct s as [w|c]; simpl in *.
  - by destruct (UserService_fetchUsers o w).
  - assert (Hmiss : cache (clearCache c) !! key_of o = None) by done.
    destruct (miss_delegates (clearCache c) o Hmiss) as [Hres Hsvc].
    simpl in Hres, Hsvc.
    change (fetchUsers ?x (service c))
      with (UserService_fetchUsers x (service c)) in Hres, Hsvc.
    rewrite client_normalised in Hres, Hsvc.
    destruct (Caching_fetchUsers o (clearCache c)) as [res c'].
    simpl in *. by rewrite Hres, Hsvc.
Qed.

(** X8: with caching enabled, which is the default, of two equal requests
    to the created service the first, answered by the network with a body,
    returns that body, and the second returns the body's users without a
    request to the network; with caching disabled both requests go to the
    network. *)
Theorem created_service_caches_by_default
  (w : Network) (ttl : option Z) (o : FetchUsersOptions)
  (response : Response) (body : ApiResponse) :
  let p := default 1 (page o) in
  let r := default 10 (results_ o) in
  respond w (requests w) (request_url p r) = Resolved response →
  ok response = true → json response = Resolved body →
  let first := fetchUsers o (createUserService None ttl w) in
  let second := fetchUsers o first.2 in
  let plain := fetchUsers o (fetchUsers o (createUserService (Some false) ttl w)).2 in
  first.1 = Resolved (Some body) ∧
  second.1 = Resolved (Some {| results := results body; info := hit_info p r |}) ∧
  requests (network_of second.2) = (requests w ++ [request_url p r])%list ∧
  requests (network_of plain.2)
  = (requests w ++ [request_url p r; request_url p r])%list.
Proof.
  intros p r Hresp Hok Hjson first second plain.
  pose proof (client_success o w response body Hresp Hok Hjson) as Hcall.
  rewrite <- client_normalised in Hcall. fold p r in Hcall.
  set (c0 := new_CachingUserService w (Some (default (5 * 60 * 1000) ttl))).
  assert (Hmiss : cache c0 !! key_of o = None) by done.
  pose proof (miss_stores c0 o body _ Hmiss Hcall) as Hfirst.
  assert (Hf : first = (Resolved (Some body),
            inr (setupCacheExpiration (key_of o)
                   (set_cache (<[key_of o:=results body]> (cache c0))
                      (set_service
                         {| requests := requests w ++ [request_url p r];
                            respond := respond w; console := console w |}
                         c0))))).
  { subst first. simpl. fold c0. by rewrite Hfirst. }
  split; [by rewrite Hf|].
  subst second. rewrite Hf. simpl.
  rewrite (hit_returns _ o (results body)) by apply lookup_insert_eq.
  split; [done|]. split; [done|].
  subst plain. simpl.
  destruct (client_call_facts o w) as (Hreq1 & Hsame & _).
  destruct (UserService_fetchUsers o w) as [res1 w1]. simpl in *.
  destruct (client_call_facts o w1) as (Hreq2 & _).
  destruct (UserService_fetchUsers o w1) as [res2 w2]. simpl in *.
  rewrite Hreq2, Hreq1. fold p r. by rewrite <- app_assoc.
Qed.

Lemma created_service_caches_by_default_witness :
  length (requests (network_of
     (fetchUsers page1
        (fetchUsers page1 (createUserService None None net_v14)).2).2))
  = 1%nat.
Proof.
  pose proof (created_service_caches_by_default net_v14 None page1
                {| ok := true; status := 200; json := Resolved body_v14 |}
                body_v14 eq_refl eq_refl eq_refl) as (_ & _ & H & _).
  cbv zeta in H. rewrite H. reflexivity.
Defined.

(** *** The list component over its life *)

Module UserListProps.
Import UserListSession.

Lemma consistent_setup : consistent setup.
Proof.
  unfold consistent. simpl. repeat split; try done; try lia.
  by intros o ?%elem_of_nil.
Qed.

Lemma pages_brought_snoc dl r :
  pages_brought (dl ++ [r])
  = (pages_brought dl + if brings_users r then 1 else 0)%nat.
Proof.
  unfold pages_brought. rewrite List.filter_app, length_app. simpl.
  by destruct (brings_users r).
Qed.

Lemma consistent_send_enter st aw dl :
  consistent {| view := st; awaiting := aw; delivered := dl |} →
  consistent (send (UserList.loadUsers_enter st)
                {| view := st; awaiting := aw; delivered := dl |}).
Proof.
  intros (Hlen & Hload & Hreq & Herr & Husers & Hpage). simpl in *.
  unfold UserList.loadUsers_enter, send.
  destruct (UserList.loading st) eqn:Hl; simpl.
  - rewrite app_nil_r. unfold consistent. simpl. by rewrite Hl.
  - destruct (UserList.hasMore st) eqn:Hm; simpl.
    + assert (aw = []) as ->.
      { destruct aw; [done|]. by pose proof (proj2 Hload ltac:(done)). }
      unfold consistent. simpl. repeat split; try done; try lia.
      by intros o ->%list_elem_of_singleton.
    + rewrite app_nil_r. unfold consistent. simpl. by rewrite Hl, Hm.
Qed.

Lemma consistent_deliver s e : consistent s → consistent (deliver s e).
Proof.
  destruct s as [st aw dl]. intros Hc. destruct e as [| |r]; simpl.
  - by apply consistent_send_enter.
  - unfold UserList.retryLoading_enter.
    destruct Hc as (Hlen & Hload & Hreq & Herr & Husers & Hpage).
    simpl in *.
    set (st' := {| UserList.users := UserList.users st;
                   UserList.currentPage := UserList.currentPage st;
                   UserList.loading := UserList.loading st;
                   UserList.error := None; UserList.hasMore := true |}).
    assert (Hc' : consistent {| view := st'; awaiting := aw; delivered := dl |}).
    { unfold consistent. simpl. done. }
    apply (consistent_send_enter st' aw dl) in Hc'.
    unfold send in *. simpl in *. exact Hc'.
  - destruct Hc as (Hlen & Hload & Hreq & Herr & Husers & Hpage).
    simpl in *. destruct aw as [|o rest].
    { unfold consistent. simpl. done. }
    assert (rest = []) as -> by (destruct rest; [done|simpl in Hlen; lia]).
    unfold consistent. simpl.
    rewrite map_app, concat_app, pages_brought_snoc. simpl.
    rewrite app_nil_r. unfold brings_users.
    destruct r as [[response|]|err]; simpl.
    + case_bool_decide as Hempty; simpl.
      * apply length_zero_iff_nil in Hempty. rewrite Hempty. simpl.
        rewrite app_nil_r. repeat split; try done; try lia.
        by intros o' ?%elem_of_nil.
      * destruct (results response) as [|u us] eqn:Hres; [done|]. simpl.
        rewrite <- Husers. repeat split; try done; try lia.
        by intros o' ?%elem_of_nil.
    + rewrite app_nil_r. repeat split; try done; try lia.
      by intros o' ?%elem_of_nil.
    + rewrite app_nil_r. repeat split; try done; try lia.
      by intros o' ?%elem_of_nil.
Qed.

Lemma consistent_run events : consistent (run events).
Proof.
  unfold run. generalize consistent_setup. generalize setup.
  induction events as [|e events IH]; intros s Hs; [done|].
  simpl. by apply IH, consistent_deliver.
Qed.

(** X9: whatever the sequence of [loadUsers] calls, clicks on Retry and
    settlements, the component has at most one request in flight; [loading]
    is set exactly while there is one; and that request asks for the
    current page with a page size of ten. *)
Theorem at_most_one_request_in_flight (events : list event) :
  let s := run events in
  (length (awaiting s) ≤ 1)%nat ∧
  (UserList.loading (view s) = true ↔ awaiting s ≠ []) ∧
  (∀ o, o ∈ awaiting s → o = options (UserList.currentPage (view s)) 10).
Proof.
  intros s. destruct (consistent_run events) as (? & ? & ? & _). done.
Qed.

Lemma at_most_one_request_in_flight_witness :
  UserList.loading (view (run [LoadUsers; LoadUsers; RetryLoading])) = true.
Proof.
  refine (proj2 (proj1 (proj2 (at_most_one_request_in_flight
                                 [LoadUsers; LoadUsers; RetryLoading]))) _).
  discriminate.
Defined.

(** X10: the users on display are the users of all the responses received,
    in the order received, and nothing else; the current page is one more
    than the number of responses that brought users. *)
Theorem users_are_the_pages_received (events : list event) :
  let s := run events in
  UserList.users (view s) = concat (map users_of (delivered s)) ∧
  UserList.currentPage (view s) = 1 + Z.of_nat (pages_brought (delivered s)).
Proof.
  intros s. destruct (consistent_run events) as (_ & _ & _ & _ & ? & ?). done.
Qed.

(** X11: whenever an error message is set, and with it the Retry button
    shown, [hasMore] is cleared: a call of [loadUsers] then sends nothing,
    while a click on Retry, when no request is in flight, sends the request
    for the current page. *)
Theorem error_stops_loading_until_retry (events : list event) :
  let s := run events in
  UserList.error (view s) ≠ None →
  UserList.hasMore (view s) = false ∧
  deliver s LoadUsers = s ∧
  (awaiting s = [] →
   awaiting (deliver s RetryLoading)
   = [options (UserList.currentPage (view s)) 10]).
Proof.
  intros s Herr.
  destruct (consistent_run events) as (_ & Hload & _ & Hstop & _).
  fold s in Hload, Hstop. specialize (Hstop Herr).
  split; [done|]. split.
  - destruct s as [st aw dl]. simpl in *.
    unfold UserList.loadUsers_enter, send. rewrite Hstop, orb_true_r.
    simpl. by rewrite app_nil_r.
  - intros Hidle. destruct s as [st aw dl]. simpl in *. subst aw.
    unfold UserList.retryLoading_enter, UserList.loadUsers_enter, send.
    simpl. destruct (UserList.loading st) eqn:Hl; [|done].
    by pose proof (proj1 Hload eq_refl).
Qed.

Lemma error_stops_loading_until_retry_witness :
  awaiting (deliver (run [LoadUsers; Settled (Rejected (HttpError 500))])
              RetryLoading)
  = [options 1 10].
Proof.
  refine (proj2 (proj2 (error_stops_loading_until_retry
                          [LoadUsers; Settled (Rejected (HttpError 500))] _))
            _).
  - discriminate.
  - reflexivity.
Defined.
End UserListProps.

(** *** The debounced function: no call is lost *)

Module DebounceMore.
Import Debounce.
Local Close Scope string_scope.
Section facts.
Context {Args : Type}.
Implicit Types (calls : list (Z * Args)).

Lemma trailing_edge_snoc W calls c stop :
  trailing_edge W (calls ++ [c]) stop
  = trailing_edge W calls c.1 ++ emitted W (Some c) stop.
Proof.
  induction calls as [|c0 calls IH]; simpl.
  - by rewrite app_nil_r.
  - rewrite IH, <- app_assoc. by destruct calls.
Qed.

Lemma trailing_edge_spaced W calls stop :
  spaced W calls stop →
  trailing_edge W calls stop = map (λ c, (c.1 + W, c.2)) calls.
Proof.
  induction calls as [|c0 calls IH]; simpl; [done|].
  intros [Hnext Hrest]. rewrite (IH Hrest).
  by rewrite bool_decide_eq_true_2.
Qed.

(** X12: for calls at times that do not go back, the debounced function
    loses no final call and no isolated call.  If the observation lasts a
    window beyond the last call, the last invocation is that of the last
    call, with its arguments; if every call is followed by a full window
    without a call, every call is invoked, in order; and there are never
    more invocations than calls. *)
Theorem debounce_loses_no_settled_call
  (wait t0 : Z) calls (stop : Z) :
  chronological t0 calls stop →
  let W := Z.max 0 wait in
  let w := advance_to stop (run wait calls (start t0)) in
  (∀ init c, calls = init ++ [c] → c.1 + W ≤ stop →
             list.last (invoked w) = Some (c.1 + W, c.2)) ∧
  (spaced W calls stop → invoked w = map (λ c, (c.1 + W, c.2)) calls) ∧
  (length (invoked w) ≤ length calls)%nat.
Proof.
  intros Hchr W w.
  assert (Hinv : invoked w = trailing_edge W calls stop).
  { subst w W.
    by rewrite (DebounceProps.run_invoked wait calls (start t0) None stop). }
  rewrite Hinv. split; [|split].
  - intros init c -> Hstop. rewrite trailing_edge_snoc. simpl.
    rewrite bool_decide_eq_true_2 by done. apply last_snoc.
  - apply trailing_edge_spaced.
  - pose proof (DebounceProps.trailing_edge_sublist wait calls stop) as Hsub.
    apply sublist_length in Hsub. by rewrite length_map in Hsub.
Qed.
End facts.

Lemma debounce_loses_no_settled_call_witness :
  invoked (advance_to 1000
             (run 200 [(0, "a"); (300, "b"); (600, "c")] (start 0)))
  = [(200, "a"); (500, "b"); (800, "c")].
Proof.
  refine (proj1 (proj2 (debounce_loses_no_settled_call 200 0
                          [(0, "a"); (300, "b"); (600, "c")] 1000 _)) _);
    simpl; lia.
Defined.
End DebounceMore.

(** *** The scroll handler behind the debounce *)

Module ScrollProps.
Import Debounce ScrollModel ScrollSamples.
Local Close Scope string_scope.

(** X13: a burst of scroll events, each within 200 ms of the one before,
    acts on the component as the handler run once, 200 ms after the last
    event, on what the target of that event shows at that time, and not at
    all before.  So it sends at most one request, and none when the
    position read then is not within 100 px of the bottom of the list. *)
Theorem scroll_burst_acts_once {Event : Type}
  (t0 : Z) (calls init : list (Z * Event)) (c : Z * Event)
  (stop : Z) (live : Event → Z → Geometry) (st : UserList.State) :
  chronological t0 calls stop → calls = init ++ [c] → burst 200 calls →
  let fired := invoked (advance_to stop (run 200 calls (start t0))) in
  let g := live c.2 (c.1 + 200) in
  after_scrolls live fired st
  = (if bool_decide (c.1 + 200 ≤ stop)
     then ((onScroll g st).1, option_list (onScroll g st).2)
     else (st, [])) ∧
  (length (after_scrolls live fired st).2 ≤ 1)%nat ∧
  (near_bottom g = false → after_scrolls live fired st = (st, [])).
Proof.
  intros Hchr -> Hburst fired g.
  assert (Hfired : fired = if bool_decide (c.1 + 200 ≤ stop)
                           then [(c.1 + 200, c.2)] else []).
  { subst fired.
    rewrite (DebounceProps.run_invoked 200 _ (start t0) None stop);
      [|done|done].
    simpl. by rewrite (DebounceProps.trailing_edge_burst 200 init c stop). }
  rewrite Hfired. clear Hfired fired.
  case_bool_decide; [|split; [done|split; [simpl; lia|done]]].
  change (after_scrolls live [(c.1 + 200, c.2)] st)
    with ((onScroll g st).1, ([] ++ option_list (onScroll g st).2)%list).
  assert (Hfar : near_bottom g = false → onScroll g st = (st, None)).
  { unfold onScroll. by intros ->. }
  destruct (onScroll g st) as [st' req]. simpl.
  split; [done|]. split; [destruct req; simpl; lia|].
  intros Hnb. by injection (Hfar Hnb) as -> ->.
Qed.

(** Three events at 0, 100 and 250 ms on a list 50 px from its bottom: at
    450 ms the handler runs once.  Observed until 500 ms, a request for
    page 1 has been sent; had the list grown before 450 ms, none. *)
Lemma scroll_burst_acts_once_witness :
  after_scrolls (λ _ _, at_bottom)
    (invoked (advance_to 500
                (run 200 [(0, 1%nat); (100, 2%nat); (250, 3%nat)] (start 0))))
    UserList.initial
  = ((UserList.loadUsers_enter UserList.initial).1, [options 1 10])
  ∧ after_scrolls grows_at_400
      (invoked (advance_to 500
                  (run 200 [(0, 1%nat); (100, 2%nat); (250, 3%nat)]
                     (start 0))))
      UserList.initial
    = (UserList.initial, []).
Proof.
  split.
  - refine (proj1 (scroll_burst_acts_once 0
                     [(0, 1%nat); (100, 2%nat); (250, 3%nat)]
                     [(0, 1%nat); (100, 2%nat)] (250, 3%nat) 500
                     (λ _ _, at_bottom) UserList.initial _ _ _)).
    + simpl. lia.
    + reflexivity.
    + simpl. lia.
  - refine (proj2 (proj2 (scroll_burst_acts_once 0
                     [(0, 1%nat); (100, 2%nat); (250, 3%nat)]
                     [(0, 1%nat); (100, 2%nat)] (250, 3%nat) 500
                     grows_at_400 UserList.initial _ _ _)) _).
    + simpl. lia.
    + reflexivity.
    + simpl. lia.
    + vm_compute. reflexivity.
Defined.
End ScrollProps.

(** *** The user card *)

Module UserCardProps.
Import UserCard.

Lemma run_from (s : State) (events : list event) :
  let s' := foldl handle s events in
  isExpanded s'
  = xorb (isExpanded s) (Nat.odd (length (List.filter is_click events))) ∧
  imageLoadError s'
  = imageLoadError s || existsb is_image_error events ∧
  isImageLoading s'
  = isImageLoading s && forallb is_click events.
Proof.
  revert s. induction events as [|e events IH]; intros s; simpl.
  - by rewrite xorb_false_r, orb_false_r, andb_true_r.
  - destruct (IH (handle s e)) as (-> & -> & ->).
    destruct e; simpl; repeat split;
      rewrite ?orb_true_r, ?orb_assoc, ?orb_false_r, ?andb_false_r;
      try done.
    rewrite Nat.odd_succ, <- Nat.negb_odd.
    by destruct (isExpanded s), (Nat.odd _).
Qed.

(** X14: after any sequence of image events and clicks, the card is
    expanded exactly when the number of clicks is odd; the image error flag
    is set exactly when an image error has occurred, and never reset; and
    the image counts as loading exactly as long as no image event, load or
    error, has occurred. *)
Theorem card_state_after_events (events : list event) :
  isExpanded (run events) = Nat.odd (length (List.filter is_click events)) ∧
  imageLoadError (run events) = existsb is_image_error events ∧
  isImageLoading (run events) = forallb is_click events.
Proof. destruct (run_from initial events) as (? & ? & ?). done. Qed.
End UserCardProps.

(** *** [isEmpty] *)

Module StringUtilsProps.
Import StringUtils.

Lemma trimStart_nil s : trimStart s = [] ↔ forallb is_white_space s = true.
Proof.
  induction s as [|c s IH]; simpl; [done|].
  destruct (is_white_space c); simpl; [done|]. split; discriminate.
Qed.

(** What [trimStart] leaves starts with a character that is not white
    space. *)
Lemma trimStart_head s c t :
  trimStart s = c :: t → is_white_space c = false.
Proof.
  induction s as [|c0 s IH]; simpl; [done|].
  destruct (is_white_space c0) eqn:Hc0; [done|]. by intros [= <- _].
Qed.

Lemma forallb_snoc (f : N → bool) l x :
  forallb f (l ++ [x]) = forallb f l && f x.
Proof.
  induction l as [|y l IH]; simpl; [by rewrite andb_true_r|].
  by rewrite IH, andb_assoc.
Qed.

(** X15: [isEmpty] is true of exactly the strings that consist of white
    space only, the empty string among them. *)
Theorem isEmpty_iff_only_white_space (str : list N) :
  isEmpty str = forallb is_white_space str.
Proof.
  unfold isEmpty, trim, trimEnd.
  destruct (forallb is_white_space str) eqn:Hall.
  - apply trimStart_nil in Hall. rewrite Hall. done.
  - apply bool_decide_eq_false. intros Hlen.
    apply length_zero_iff_nil in Hlen.
    destruct (trimStart str) as [|c t] eqn:Hstart.
    { apply trimStart_nil in Hstart. congruence. }
    apply trimStart_head in Hstart.
    apply (f_equal reverse) in Hlen. rewrite reverse_involutive in Hlen.
    simpl in Hlen. apply trimStart_nil in Hlen.
    rewrite reverse_cons, forallb_snoc, Hstart, andb_false_r in Hlen.
    done.
Qed.
End StringUtilsProps.
